(** * A shallow embedding of the ray-casting engine of [game.ts]

    Number model.  A JavaScript [number] is modelled by a rational ([Q]):
    every finite double is a rational, and the comparisons, [Math.floor],
    [Math.ceil] and [Math.sign] are exact on that type.  Arithmetic is exact
    too, except where the rounding of a double decides what the engine
    returns: there the result of an operation goes through [fl], the
    rounding of binary64 to the nearest, ties to even.  That is the case in
    [sceneGetFloor] and [sceneGetCeiling], in the four tones of floor and
    ceiling, and in [Binary64], which holds the ray stepping with every
    operation rounded.  [NaN] and the infinities are outside the model, and
    so is a division by zero (which [Q] sends to 0); equality of numbers is
    [Qeq] (written [==]).

    The transcendental functions of the host ([Math.cos], [Math.sin],
    [Math.sqrt], the constant [Math.PI]) and its random source
    ([Math.random]) are an interface, [Host]: the language standard only
    asks them to be implementation approximations, so every theorem below
    holds for any host.  [refHost] is one concrete host, used to run the
    definitions on explicit inputs. *)

From Stdlib Require Import ZArith QArith Qpower Qround Qabs Qminmax Lqa Lia List Bool Sorted Permutation.
Import ListNotations.
Open Scope Q_scope.

(* ------------------------------------------------------------------ *)
(** ** Numbers *)

Definition Qlt_bool (a b : Q) : bool := negb (Qle_bool b a).

Definition Math_floor (a : Q) : Q := inject_Z (Qfloor a).
Definition Math_ceil (a : Q) : Q := inject_Z (Qceiling a).
Definition Math_sign (a : Q) : Q := inject_Z (Z.sgn (Qnum a)).
Definition Math_abs (a : Q) : Q := Qabs a.
Definition Math_max (a b : Q) : Q := if Qle_bool a b then b else a.
Definition Math_min (a b : Q) : Q := if Qle_bool a b then a else b.

(** [2^k] for an exponent of either sign. *)
Definition pow2 (k : Z) : Q :=
  if (0 <=? k)%Z then inject_Z (2 ^ k) else 1 # Z.to_pos (2 ^ (- k)).

(** The exponent of the binade of [q], for [q] not 0: the [e] with
    [2^e <= |q| < 2^(e+1)]. *)
Definition binade (q : Q) : Z :=
  let e := (Z.log2 (Z.abs (Qnum q)) - Z.log2 (Z.pos (Qden q)))%Z in
  if Qle_bool (pow2 e) (Qabs q) then e else (e - 1)%Z.

(** The nearest whole number, the even one of two that are as near. *)
Definition roundHalfEven (q : Q) : Z :=
  let f := Qfloor q in
  match Qcompare (q - inject_Z f) (1 # 2) with
  | Lt => f
  | Gt => (f + 1)%Z
  | Eq => if Z.even f then f else (f + 1)%Z
  end.

(** The double nearest to [q], as the host rounds the exact result of an
    operation on doubles and reads a decimal literal: 53 significant bits,
    steps of [2^-1074] below [2^-1022], ties to the even significand.  A
    result beyond the largest double, which the host makes an infinity, is
    outside the model. *)
Definition fl (q : Q) : Q :=
  if Qeq_bool q 0 then 0
  else
    let k := Z.max (binade q - 52) (- 1074) in
    Qred (inject_Z (roundHalfEven (q / pow2 k)) * pow2 k).

(** The part of [Math] that the host approximates, and [Math.random] as an
    oracle: its [n]-th call returns [Math_random n]. *)
Class Host := {
  Math_cos : Q -> Q;
  Math_sin : Q -> Q;
  Math_sqrt : Q -> Q;
  Math_PI : Q;
  Math_random : nat -> Q
}.

(** Whether a result is there. *)
Definition isSome {A : Type} (o : option A) : bool :=
  match o with Some _ => true | None => false end.

(** Reading [a[i]] in JavaScript: [undefined] ([None]) unless [i] is an
    integer index inside the array. *)
Definition array_get {A : Type} (a : list A) (i : Q) : option A :=
  if Qeq_bool (inject_Z (Qfloor i)) i && (0 <=? Qfloor i)%Z
  then nth_error a (Z.to_nat (Qfloor i))
  else None.

(** [lo, lo+1, ..., lo+len-1]: the values a counting [for] loop goes through. *)
Fixpoint Zseq (lo : Z) (len : nat) : list Z :=
  match len with
  | O => []
  | S n => lo :: Zseq (lo + 1) n
  end.

(** The values of [for (let i = lo; i <= hi; ++i)]. *)
Definition Zrange (lo hi : Z) : list Z := Zseq lo (Z.to_nat (hi - lo + 1)).

(* ------------------------------------------------------------------ *)
(** ** vector.ts

    [game.ts] imports [Vector2], [Vector3] and [RGBA] from [vector.ts].  The
    classes are taken from the revision of the engine that still has them in
    one file with the rest; a method returns the vector it has written,
    which the embedding returns as a new value. *)

Record RGBA := mkRGBA { r : Q; g : Q; b : Q; a : Q }.

Module Vector2.

Record t := new { x : Q; y : Q }.

(** Modelled from the spec: [setPolar] itself is not in the sources (the
    revision that has the class calls it [setAngle]); section 4.A gives
    [(cos angle * len, sin angle * len)], with [len] 1 when it is left out. *)
Definition setPolar `{Host} (angle len : Q) : t :=
  new (Math_cos angle * len) (Math_sin angle * len).

Definition setScalar (scalar : Q) : t := new scalar scalar.

Definition add (this that : t) : t := new (x this + x that) (y this + y that).

Definition sub (this that : t) : t := new (x this - x that) (y this - y that).

Definition scale (this : t) (value : Q) : t := new (x this * value) (y this * value).

Definition sqrLength (this : t) : Q := x this * x this + y this * y this.

Definition length `{Host} (this : t) : Q := Math_sqrt (sqrLength this).

Definition norm `{Host} (this : t) : t :=
  let l := length this in
  if Qeq_bool l 0 then this else scale this (1 / l).

Definition sqrDistanceTo (this that : t) : Q :=
  let dx := x that - x this in
  let dy := y that - y this in
  dx * dx + dy * dy.

Definition distanceTo `{Host} (this that : t) : Q := Math_sqrt (sqrDistanceTo this that).

Definition lerp (this that : t) (k : Q) : t :=
  new (x this + (x that - x this) * k) (y this + (y that - y this) * k).

Definition dot (this that : t) : Q := x this * x that + y this * y that.

(** Equality of the two coordinates as numbers. *)
Definition eq (p q : t) : Prop := x p == x q /\ y p == y q.

End Vector2.

Module Vector3.

Record t := new { x : Q; y : Q; z : Q }.

Definition clone2 (this : t) : Vector2.t := Vector2.new (x this) (y this).

Definition copy2 (that : Vector2.t) (z0 : Q) : t :=
  new (Vector2.x that) (Vector2.y that) z0.

Definition sqrLength (this : t) : Q :=
  x this * x this + y this * y this + z this * z this.

Definition length `{Host} (this : t) : Q := Math_sqrt (sqrLength this).

Definition scale (this : t) (value : Q) : t :=
  new (x this * value) (y this * value) (z this * value).

Definition norm `{Host} (this : t) : t :=
  let l := length this in
  if Qeq_bool l 0 then this else scale this (1 / l).

Definition eq (p q : t) : Prop := x p == x q /\ y p == y q /\ z p == z q.

End Vector3.

(* ------------------------------------------------------------------ *)
(** ** Constants of game.ts *)

Definition EPS : Q := 1 # 1000000.
Definition NEAR_CLIPPING_PLANE : Q := 1 # 10.
Definition FAR_CLIPPING_PLANE : Q := 10.
Definition FOV `{Host} : Q := Math_PI * (1 # 2).
Definition HALF_FOV_COS `{Host} : Q := Math_cos (FOV * (1 # 2)).
Definition PLAYER_SPEED : Q := 2.
Definition PLAYER_RADIUS : Q := 1 # 2.

(** The four tones are sums of two decimal literals: each literal is the
    double nearest to it, and the sum is rounded. *)
Definition SCENE_FLOOR1 : RGBA :=
  mkRGBA (fl (94 # 1000)) (fl (fl (94 # 1000) + fl (5 # 100)))
         (fl (fl (94 # 1000) + fl (5 # 100))) 1.
Definition SCENE_FLOOR2 : RGBA :=
  mkRGBA (fl (188 # 1000)) (fl (fl (188 # 1000) + fl (5 # 100)))
         (fl (fl (188 # 1000) + fl (5 # 100))) 1.
Definition SCENE_CEILING1 : RGBA :=
  mkRGBA (fl (fl (94 # 1000) + fl (5 # 100))) (fl (94 # 1000)) (fl (94 # 1000)) 1.
Definition SCENE_CEILING2 : RGBA :=
  mkRGBA (fl (fl (188 # 1000) + fl (5 # 100))) (fl (188 # 1000)) (fl (188 # 1000)) 1.

Definition ITEM_FREQ : Q := 7 # 10.
Definition ITEM_AMP : Q := 7 # 100.

Definition BOMB_LIFETIME : Q := 2.
Definition BOMB_THROW_VELOCITY : Q := 5.
Definition BOMB_GRAVITY : Q := 10.
Definition BOMB_DAMP : Q := 8 # 10.
Definition BOMB_SCALE : Q := 1 # 4.
Definition BOMB_PARTICLE_COUNT : nat := 50.

Definition PARTICLE_LIFETIME : Q := 1.
Definition PARTICLE_GRAVITY : Q := 10.
Definition PARTICLE_DAMP : Q := 8 # 10.
Definition PARTICLE_SCALE : Q := 1 # 10.
Definition PARTICLE_MAX_SPEED : Q := 8.
Definition PARTICLE_COLOR : RGBA := mkRGBA 1 (1 # 2) (15 # 100) 1.

Definition MINIMAP_PLAYER_SIZE : Q := 1 # 2.

(* ------------------------------------------------------------------ *)
(** ** Ray stepping

    [snap], [hittingCell], [rayStep] and, below, [castRay] are given twice:
    here with exact arithmetic, as [renderWalls] uses them in this
    development, and in [Binary64] with every operation rounded as the host
    rounds it.  The two agree where no operation rounds.  The properties
    stated of the exact ones are those that the rounding leaves as they
    are; termination is not one of them, and is settled on [Binary64]. *)

Definition snap (x dx : Q) : Q :=
  if Qlt_bool 0 dx then Math_ceil (x + Math_sign dx * EPS)
  else if Qlt_bool dx 0 then Math_floor (x + Math_sign dx * EPS)
  else x.

Definition hittingCell (p1 p2 : Vector2.t) : Vector2.t :=
  let dx := Vector2.x p2 - Vector2.x p1 in
  let dy := Vector2.y p2 - Vector2.y p1 in
  Vector2.new (Math_floor (Vector2.x p2 + Math_sign dx * EPS))
              (Math_floor (Vector2.y p2 + Math_sign dy * EPS)).

Definition rayStep (p1 p2 : Vector2.t) : Vector2.t :=
  let dx := Vector2.x p2 - Vector2.x p1 in
  let dy := Vector2.y p2 - Vector2.y p1 in
  if negb (Qeq_bool dx 0) then
    let k := dy / dx in
    let c := Vector2.y p1 - k * Vector2.x p1 in
    let p3 :=
      let x3 := snap (Vector2.x p2) dx in
      let y3 := x3 * k + c in
      Vector2.new x3 y3 in
    if negb (Qeq_bool k 0) then
      let y3 := snap (Vector2.y p2) dy in
      let x3 := (y3 - c) / k in
      let p3t := Vector2.new x3 y3 in
      if Qlt_bool (Vector2.sqrDistanceTo p2 p3t) (Vector2.sqrDistanceTo p2 p3)
      then p3t else p3
    else p3
  else
    let y3 := snap (Vector2.y p2) dy in
    let x3 := Vector2.x p2 in
    Vector2.new x3 y3.

(* ------------------------------------------------------------------ *)
(** ** Scene *)

(** A texture or sprite image: [ImageData] with its RGBA8 bytes. *)
Record ImageData := mkImageData {
  img_width : Z;
  img_height : Z;
  img_data : list Z
}.

(** [type Tile = RGBA | ImageData | null]. *)
Inductive Tile :=
| TNull
| TRGBA (c : RGBA)
| TImageData (img : ImageData).

(** The three variants the specification speaks of.  A lookup that yields
    [undefined] ([None]) or [null] is [Empty]: it is neither an [RGBA] nor an
    [ImageData] for any [instanceof] test of the engine. *)
Inductive TileVariant := Empty | SolidColor | Textured.

Definition variant (c : option Tile) : TileVariant :=
  match c with
  | Some (TRGBA _) => SolidColor
  | Some (TImageData _) => Textured
  | Some TNull | None => Empty
  end.

Record Scene := mkScene {
  walls : list Tile;
  width : Q;
  height : Q
}.

(** [Number.MIN_VALUE], the smallest positive double. *)
Definition Number_MIN_VALUE : Q := 1 # (2 ^ 1074).

Definition createScene (rows : list (list Tile)) : Scene :=
  let w := fold_left (fun w row => Math_max w (inject_Z (Z.of_nat (List.length row))))
                     rows Number_MIN_VALUE in
  mkScene
    (fold_left (fun acc row =>
        acc ++ row ++ repeat TNull (Z.to_nat (Qceiling (w - inject_Z (Z.of_nat (List.length row))))))
      rows [])
    w
    (inject_Z (Z.of_nat (List.length rows))).

Definition sceneContains (scene : Scene) (p : Vector2.t) : bool :=
  Qle_bool 0 (Vector2.x p) && Qlt_bool (Vector2.x p) (width scene)
  && Qle_bool 0 (Vector2.y p) && Qlt_bool (Vector2.y p) (height scene).

Definition sceneGetTile (scene : Scene) (p : Vector2.t) : option Tile :=
  if negb (sceneContains scene p) then None
  else array_get (walls scene)
         (Math_floor (Vector2.y p) * width scene + Math_floor (Vector2.x p)).

(** The sum of the two floors is a sum of doubles and is rounded; it is a
    whole number, of which [%] takes the remainder, exactly and with the
    sign of the dividend. *)
Definition sceneGetFloor (p : Vector2.t) : option Tile :=
  if (Z.rem (Qfloor (fl (Math_floor (Vector2.x p) + Math_floor (Vector2.y p)))) 2 =? 0)%Z
  then Some (TRGBA SCENE_FLOOR1)
  else Some (TRGBA SCENE_FLOOR2).

Definition sceneGetCeiling (p : Vector2.t) : option Tile :=
  if (Z.rem (Qfloor (fl (Math_floor (Vector2.x p) + Math_floor (Vector2.y p)))) 2 =? 0)%Z
  then Some (TRGBA SCENE_CEILING1)
  else Some (TRGBA SCENE_CEILING2).

Definition sceneIsWall (scene : Scene) (p : Vector2.t) : bool :=
  match sceneGetTile scene p with
  | None => false
  | Some TNull => false
  | Some _ => true
  end.

(** The four corners [px -+ sx*0.5] and [py -+ sy*0.5] are taken exactly;
    the rounding of these sums is not modelled. *)
Definition sceneCanRectangleFitHere (scene : Scene) (px py sx sy : Q) : bool :=
  let x1 := Qfloor (px - sx * (1 # 2)) in
  let x2 := Qfloor (px + sx * (1 # 2)) in
  let y1 := Qfloor (py - sy * (1 # 2)) in
  let y2 := Qfloor (py + sy * (1 # 2)) in
  forallb (fun x =>
    forallb (fun y =>
      negb (sceneIsWall scene (Vector2.new (inject_Z x) (inject_Z y))))
      (Zrange y1 y2))
    (Zrange x1 x2).

(** [castRay]: the [while] loop runs on fuel; [None] when the fuel is spent
    before the loop has left.  [start] stays the first [p1]. *)
Fixpoint castRay_loop (fuel : nat) (scene : Scene) (start p1 p2 : Vector2.t)
  : option Vector2.t :=
  match fuel with
  | O => None
  | S fuel' =>
    if Qlt_bool (Vector2.sqrDistanceTo start p1)
                (FAR_CLIPPING_PLANE * FAR_CLIPPING_PLANE)
    then
      let c := hittingCell p1 p2 in
      if sceneIsWall scene c then Some p2
      else
        let p3 := rayStep p1 p2 in
        castRay_loop fuel' scene start p2 p3
    else Some p2
  end.

Definition castRay (fuel : nat) (scene : Scene) (p1 p2 : Vector2.t)
  : option Vector2.t :=
  castRay_loop fuel scene p1 p1 p2.

(** The ray stepping on doubles: each sum, difference, product and quotient
    is rounded by [fl], and [EPS] is the double nearest to 1e-6.  The points
    given are doubles; so are all the points computed. *)
Module Binary64.

Definition add (u v : Q) : Q := fl (u + v).
Definition sub (u v : Q) : Q := fl (u - v).
Definition mul (u v : Q) : Q := fl (u * v).
Definition div (u v : Q) : Q := fl (u / v).

Definition EPS : Q := fl (1 # 1000000).

Definition sqrDistanceTo (this that : Vector2.t) : Q :=
  let dx := sub (Vector2.x that) (Vector2.x this) in
  let dy := sub (Vector2.y that) (Vector2.y this) in
  add (mul dx dx) (mul dy dy).

Definition snap (x dx : Q) : Q :=
  if Qlt_bool 0 dx then Math_ceil (add x (mul (Math_sign dx) EPS))
  else if Qlt_bool dx 0 then Math_floor (add x (mul (Math_sign dx) EPS))
  else x.

Definition hittingCell (p1 p2 : Vector2.t) : Vector2.t :=
  let dx := sub (Vector2.x p2) (Vector2.x p1) in
  let dy := sub (Vector2.y p2) (Vector2.y p1) in
  Vector2.new (Math_floor (add (Vector2.x p2) (mul (Math_sign dx) EPS)))
              (Math_floor (add (Vector2.y p2) (mul (Math_sign dy) EPS))).

Definition rayStep (p1 p2 : Vector2.t) : Vector2.t :=
  let dx := sub (Vector2.x p2) (Vector2.x p1) in
  let dy := sub (Vector2.y p2) (Vector2.y p1) in
  if negb (Qeq_bool dx 0) then
    let k := div dy dx in
    let c := sub (Vector2.y p1) (mul k (Vector2.x p1)) in
    let p3 :=
      let x3 := snap (Vector2.x p2) dx in
      let y3 := add (mul x3 k) c in
      Vector2.new x3 y3 in
    if negb (Qeq_bool k 0) then
      let y3 := snap (Vector2.y p2) dy in
      let x3 := div (sub y3 c) k in
      let p3t := Vector2.new x3 y3 in
      if Qlt_bool (sqrDistanceTo p2 p3t) (sqrDistanceTo p2 p3)
      then p3t else p3
    else p3
  else
    let y3 := snap (Vector2.y p2) dy in
    let x3 := Vector2.x p2 in
    Vector2.new x3 y3.

Fixpoint castRay_loop (fuel : nat) (scene : Scene) (start p1 p2 : Vector2.t)
  : option Vector2.t :=
  match fuel with
  | O => None
  | S fuel' =>
    if Qlt_bool (sqrDistanceTo start p1)
                (mul FAR_CLIPPING_PLANE FAR_CLIPPING_PLANE)
    then
      let c := hittingCell p1 p2 in
      if sceneIsWall scene c then Some p2
      else
        let p3 := rayStep p1 p2 in
        castRay_loop fuel' scene start p2 p3
    else Some p2
  end.

Definition castRay (fuel : nat) (scene : Scene) (p1 p2 : Vector2.t)
  : option Vector2.t :=
  castRay_loop fuel scene p1 p1 p2.

End Binary64.

(* ------------------------------------------------------------------ *)
(** ** Player *)

Record Player := mkPlayer {
  position : Vector2.t;
  fovLeft : Vector2.t;
  fovRight : Vector2.t;
  controlVelocity : Vector2.t;
  direction : Q;
  movingForward : bool;
  movingBackward : bool;
  turningLeft : bool;
  turningRight : bool
}.

Definition createPlayer (position : Vector2.t) (direction : Q) : Player :=
  mkPlayer position (Vector2.new 0 0) (Vector2.new 0 0) (Vector2.new 0 0)
           direction false false false false.

Section WithHost.
Context `{Host}.

Definition updatePlayer (player : Player) (scene : Scene) (deltaTime : Q) : Player :=
  let cv0 := Vector2.setScalar 0 in
  let cv1 :=
    if movingForward player
    then Vector2.add cv0 (Vector2.setPolar (direction player) PLAYER_SPEED)
    else cv0 in
  let cv2 :=
    if movingBackward player
    then Vector2.sub cv1 (Vector2.setPolar (direction player) PLAYER_SPEED)
    else cv1 in
  let av0 := 0 in
  let av1 := if turningLeft player then av0 - Math_PI * (3 # 4) else av0 in
  let av2 := if turningRight player then av1 + Math_PI * (3 # 4) else av1 in
  let direction' := direction player + av2 * deltaTime in
  let nx := Vector2.x (position player) + Vector2.x cv2 * deltaTime in
  let pos1 :=
    if sceneCanRectangleFitHere scene nx (Vector2.y (position player))
         MINIMAP_PLAYER_SIZE MINIMAP_PLAYER_SIZE
    then Vector2.new nx (Vector2.y (position player))
    else position player in
  let ny := Vector2.y pos1 + Vector2.y cv2 * deltaTime in
  let pos2 :=
    if sceneCanRectangleFitHere scene (Vector2.x pos1) ny
         MINIMAP_PLAYER_SIZE MINIMAP_PLAYER_SIZE
    then Vector2.new (Vector2.x pos1) ny
    else pos1 in
  let halfFov := FOV * (1 # 2) in
  let fovLen := NEAR_CLIPPING_PLANE / Math_cos halfFov in
  mkPlayer pos2
    (Vector2.add (Vector2.setPolar (direction' - halfFov) fovLen) pos2)
    (Vector2.add (Vector2.setPolar (direction' + halfFov) fovLen) pos2)
    cv2 direction'
    (movingForward player) (movingBackward player)
    (turningLeft player) (turningRight player).

End WithHost.

(* ------------------------------------------------------------------ *)
(** ** Display *)

(** A pixel expression: [None] is [NaN], what arithmetic on an [undefined]
    array read gives. *)
Definition num := option Q.

Definition num_of_byte (v : option Z) : num := option_map inject_Z v.
Definition nmul (u v : num) : num :=
  match u, v with Some p, Some q => Some (p * q) | _, _ => None end.
Definition nadd (u v : num) : num :=
  match u, v with Some p, Some q => Some (p + q) | _, _ => None end.

(** Conversion of a stored value in a [Uint8ClampedArray]: [NaN] gives 0,
    the rest is clamped to 0..255 and rounded to the nearest integer, ties to
    the even one. *)
Definition toUint8Clamp (v : num) : Z :=
  match v with
  | None => 0%Z
  | Some q =>
    if Qle_bool q 0 then 0%Z
    else if Qle_bool 255 q then 255%Z
    else
      let f := Qfloor q in
      let d := q - inject_Z f in
      if Qlt_bool d (1 # 2) then f
      else if Qlt_bool (1 # 2) d then (f + 1)%Z
      else if Z.even f then f else (f + 1)%Z
  end.

Fixpoint list_set {A : Type} (l : list A) (i : nat) (v : A) : list A :=
  match l, i with
  | [], _ => []
  | _ :: l', O => v :: l'
  | u :: l', S i' => u :: list_set l' i' v
  end.

(** [data[i]] on a typed array: [undefined] outside it. *)
Definition data_get (data : list Z) (i : Z) : option Z :=
  if (i <? 0)%Z then None else nth_error data (Z.to_nat i).

(** [data[i] = v] on a [Uint8ClampedArray]: nothing happens outside it. *)
Definition data_set (data : list Z) (i : Z) (v : num) : list Z :=
  if (i <? 0)%Z then data else list_set data (Z.to_nat i) (toUint8Clamp v).

Definition image_set (img : ImageData) (i : Z) (v : num) : ImageData :=
  mkImageData (img_width img) (img_height img) (data_set (img_data img) i v).

(** [zBuffer] is a plain array, a map from index to number that a write
    extends: reading a missing index gives [undefined]. *)
Record Display := mkDisplay {
  backImageData : ImageData;
  zBuffer : Z -> option Q
}.

Definition zBuffer_set (zb : Z -> option Q) (i : Z) (v : Q) : Z -> option Q :=
  fun j => if (j =? i)%Z then Some v else zb j.

Definition createDisplay (width height : Z) : Display :=
  mkDisplay
    (mkImageData width height (repeat 255%Z (Z.to_nat (width * height * 4))))
    (fun j => if (0 <=? j)%Z && (j <? width)%Z then Some 0 else None).

(* ------------------------------------------------------------------ *)
(** ** Walls, floor and ceiling *)

(** The shading factor of a solid-colour strip and of a textured strip, as
    [renderWalls] computes each from [display.zBuffer[x]]. *)
Definition shadowSolid (zx : Q) : Q := 1 / zx * 2.
Definition shadowTextured (zx : Q) : Q := Math_min (1 / zx * 2) 1.

(** Writing the three colour channels of the pixel that starts at [destP]. *)
Definition putRGB (img : ImageData) (destP : Z) (cr cg cb : num) : ImageData :=
  image_set (image_set (image_set img (destP + 0) cr) (destP + 1) cg) (destP + 2) cb.

Section WithHost.
Context `{Host}.

(** The body of the column loop of [renderWalls], after the ray of column
    [x] has come back with [p]. *)
Definition renderWallStrip (display : Display) (player : Player) (scene : Scene)
    (x : Z) (p : Vector2.t) : Display :=
  let d := Vector2.setPolar (direction player) 1 in
  let W := img_width (backImageData display) in
  let Hh := img_height (backImageData display) in
  let c := hittingCell (position player) p in
  let cell := sceneGetTile scene c in
  let v := Vector2.sub p (position player) in
  let zx := Vector2.dot v d in
  let zb := zBuffer_set (zBuffer display) x zx in
  match cell with
  | Some (TRGBA col) =>
    let stripHeight := inject_Z Hh / zx in
    let shadow := shadowSolid zx in
    let img :=
      fold_left (fun img dy =>
          let y := (Qfloor ((inject_Z Hh - stripHeight) * (1 # 2)) + dy)%Z in
          let destP := ((y * W + x) * 4)%Z in
          putRGB img destP
            (Some (r col * shadow * 255))
            (Some (g col * shadow * 255))
            (Some (b col * shadow * 255)))
        (Zrange 0 (Qceiling stripHeight - 1)) (backImageData display) in
    mkDisplay img zb
  | Some (TImageData tex) =>
    let stripHeight := inject_Z Hh / zx in
    let t := Vector2.sub p c in
    let u :=
      if Qlt_bool (Math_abs (Vector2.x t)) EPS && Qlt_bool 0 (Vector2.y t)
      then Vector2.y t
      else if Qlt_bool (Math_abs (Vector2.x t - 1)) EPS && Qlt_bool 0 (Vector2.y t)
      then 1 - Vector2.y t
      else if Qlt_bool (Math_abs (Vector2.y t)) EPS && Qlt_bool 0 (Vector2.x t)
      then 1 - Vector2.x t
      else Vector2.x t in
    let y1 := Qfloor ((inject_Z Hh - stripHeight) * (1 # 2)) in
    let y2 := Qfloor (inject_Z y1 + stripHeight) in
    let by1 := Z.max 0 y1 in
    let by2 := Z.min (Hh - 1) y2 in
    let tx := Qfloor (u * inject_Z (img_width tex)) in
    let sh := (1 / Math_ceil stripHeight) * inject_Z (img_height tex) in
    let shadow := shadowTextured zx in
    let img :=
      fold_left (fun img y =>
          let ty := Qfloor (inject_Z (y - y1) * sh) in
          let destP := ((y * W + x) * 4)%Z in
          let srcP := ((ty * img_width tex + tx) * 4)%Z in
          let texel k := nmul (num_of_byte (data_get (img_data tex) (srcP + k))) (Some shadow) in
          putRGB img destP (texel 0%Z) (texel 1%Z) (texel 2%Z))
        (Zrange by1 by2) (backImageData display) in
    mkDisplay img zb
  | _ => mkDisplay (backImageData display) zb
  end.

(** [renderWalls]: columns left to right; [None] when a ray ran out of fuel. *)
Definition renderWalls (fuel : nat) (display : Display) (player : Player)
    (scene : Scene) : option Display :=
  let W := img_width (backImageData display) in
  fold_left (fun acc x =>
      match acc with
      | None => None
      | Some disp =>
        match castRay fuel scene (position player)
                (Vector2.lerp (fovLeft player) (fovRight player)
                   (inject_Z x / inject_Z W)) with
        | None => None
        | Some p => Some (renderWallStrip disp player scene x p)
        end
      end)
    (Zrange 0 (W - 1)) (Some display).

Definition renderFloorAndCeiling (imageData : ImageData) (player : Player) : ImageData :=
  let W := img_width imageData in
  let Hh := img_height imageData in
  let pz := inject_Z Hh / 2 in
  let bp := Vector2.length (Vector2.sub (fovLeft player) (position player)) in
  fold_left (fun img y =>
      let sz := (Hh - y - 1)%Z in
      let ap := pz - inject_Z sz in
      let b0 := (bp / ap) * pz / NEAR_CLIPPING_PLANE in
      let t1 := Vector2.add (Vector2.scale (Vector2.norm
                   (Vector2.sub (fovLeft player) (position player))) b0) (position player) in
      let t2 := Vector2.add (Vector2.scale (Vector2.norm
                   (Vector2.sub (fovRight player) (position player))) b0) (position player) in
      fold_left (fun img x =>
          let t := Vector2.lerp t1 t2 (inject_Z x / inject_Z W) in
          let img1 :=
            match sceneGetFloor t with
            | Some (TRGBA floorTile) =>
              let destP := ((y * W + x) * 4)%Z in
              let shadow := Vector2.distanceTo (position player) t * 255 in
              putRGB img destP (Some (r floorTile * shadow))
                (Some (g floorTile * shadow)) (Some (b floorTile * shadow))
            | _ => img
            end in
          match sceneGetCeiling t with
          | Some (TRGBA ceilingTile) =>
            let destP := ((sz * W + x) * 4)%Z in
            let shadow := Vector2.distanceTo (position player) t * 255 in
            putRGB img1 destP (Some (r ceilingTile * shadow))
              (Some (g ceilingTile * shadow)) (Some (b ceilingTile * shadow))
          | _ => img1
          end)
        (Zrange 0 (W - 1)) img)
    (Zrange (Qfloor (inject_Z Hh / 2)) (Hh - 1)) imageData.

End WithHost.

(* ------------------------------------------------------------------ *)
(** ** Sprites *)

Inductive SpriteImage :=
| SImageData (img : ImageData)
| SRGBA (c : RGBA).

Record Sprite := mkSprite {
  image : SpriteImage;
  sprite_position : Vector2.t;
  sprite_z : Q;
  scale : Q;
  dist : Q;
  pdist : Q;
  t : Q
}.

Record SpritePool := mkSpritePool {
  items : list Sprite;
  length : nat
}.

Definition createSpritePool : SpritePool := mkSpritePool [] 0.

Definition spritePoolReset (spritePool : SpritePool) : SpritePool :=
  mkSpritePool (items spritePool) 0.

Definition pushSprite (spritePool : SpritePool) (image : SpriteImage)
    (position : Vector2.t) (z scale : Q) : SpritePool :=
  let s := mkSprite image position z scale 0 0 0 in
  if (List.length (items spritePool) <=? length spritePool)%nat
  then mkSpritePool (items spritePool ++ [s]) (length spritePool + 1)
  else mkSpritePool (list_set (items spritePool) (length spritePool) s)
                    (length spritePool + 1).

(** [visibleSprites.sort((a, b) => b.pdist - a.pdist)]: the sort of the
    language is stable, and the stable arrangement of a list under a total
    preorder is unique, so a stable insertion sort gives its result.
    [a] goes before the first [e] with [b.pdist - a.pdist <= 0]. *)
Fixpoint insertSprite (s : Sprite) (l : list Sprite) : list Sprite :=
  match l with
  | [] => [s]
  | e :: l' =>
    if Qle_bool (pdist e - pdist s) 0 then s :: e :: l'
    else e :: insertSprite s l'
  end.

Fixpoint sortSprites (l : list Sprite) : list Sprite :=
  match l with
  | [] => []
  | s :: l' => insertSprite s (sortSprites l')
  end.

Section WithHost.
Context `{Host}.

(** One turn of the loop of [cullSprites]: the sprite with [dist], [t] and
    [pdist] as the loop leaves them, and whether it is pushed. *)
Definition cullSprite (player : Player) (sprite : Sprite) : Sprite * bool :=
  let dir := Vector2.setPolar (direction player) 1 in
  let sp := Vector2.sub (sprite_position sprite) (position player) in
  let spl := Vector2.length sp in
  if Qle_bool spl NEAR_CLIPPING_PLANE then (sprite, false)
  else if Qle_bool FAR_CLIPPING_PLANE spl then (sprite, false)
  else
    let dot := Vector2.dot sp dir / spl in
    if negb (Qle_bool HALF_FOV_COS dot) then (sprite, false)
    else
      let dist' := NEAR_CLIPPING_PLANE / dot in
      let sp' := Vector2.add (Vector2.scale (Vector2.norm sp) dist') (position player) in
      let t' := Vector2.distanceTo (fovLeft player) sp'
                / Vector2.distanceTo (fovLeft player) (fovRight player) in
      let pdist' := Vector2.dot (Vector2.sub (sprite_position sprite) (position player)) dir in
      let sprite' := mkSprite (image sprite) (sprite_position sprite) (sprite_z sprite)
                       (scale sprite) dist' pdist' t' in
      if Qlt_bool pdist' NEAR_CLIPPING_PLANE then (sprite', false)
      else if Qle_bool FAR_CLIPPING_PLANE pdist' then (sprite', false)
      else (sprite', true).

(** [cullSprites]: the pool with the sprites it has written to, and the new
    content of [visibleSprites] (emptied first, then filled and sorted).
    [None] is the [TypeError] of reading a pool slot that does not exist. *)
Definition cullSprites (player : Player) (spritePool : SpritePool)
  : option (SpritePool * list Sprite) :=
  match
    fold_left (fun acc i =>
        match acc with
        | None => None
        | Some (its, vis) =>
          match nth_error its i with
          | None => None
          | Some sprite =>
            let (sprite', keep) := cullSprite player sprite in
            Some (list_set its i sprite', if keep then vis ++ [sprite'] else vis)
          end
        end)
      (seq 0 (length spritePool)) (Some (items spritePool, []))
  with
  | None => None
  | Some (its, vis) => Some (mkSpritePool its (length spritePool), sortSprites vis)
  end.

End WithHost.

(** [sprite.pdist < display.zBuffer[x]]; a comparison with [undefined] is false. *)
Definition spriteInFront (display : Display) (sprite : Sprite) (x : Z) : bool :=
  match zBuffer display x with
  | Some zx => Qlt_bool (pdist sprite) zx
  | None => false
  end.

(** One turn of the loop of [renderSprites]. *)
Definition renderSprite (display : Display) (sprite : Sprite) : Display :=
  let W := img_width (backImageData display) in
  let Hh := img_height (backImageData display) in
  let cx := inject_Z W * t sprite in
  let cy := inject_Z Hh * (1 # 2) in
  let maxSpriteSize := inject_Z Hh / pdist sprite in
  let spriteSize := maxSpriteSize * scale sprite in
  let x1 := Qfloor (cx - spriteSize * (1 # 2)) in
  let x2 := Qfloor (inject_Z x1 + spriteSize - 1) in
  let bx1 := Z.max 0 x1 in
  let bx2 := Z.min (W - 1) x2 in
  let y1 := Qfloor (cy + maxSpriteSize * (1 # 2) - maxSpriteSize * sprite_z sprite) in
  let y2 := Qfloor (inject_Z y1 + spriteSize - 1) in
  let by1 := Z.max 0 y1 in
  let by2 := Z.min (Hh - 1) y2 in
  match image sprite with
  | SImageData im =>
    let src := img_data im in
    let dest :=
      fold_left (fun dest x =>
          if spriteInFront display sprite x then
            fold_left (fun dest y =>
                let tx := Qfloor (inject_Z (x - x1) / spriteSize * inject_Z (img_width im)) in
                let ty := Qfloor (inject_Z (y - y1) / spriteSize * inject_Z (img_height im)) in
                let srcP := ((ty * img_width im + tx) * 4)%Z in
                let destP := ((y * W + x) * 4)%Z in
                let alpha := option_map (fun v => v / 255) (num_of_byte (data_get src (srcP + 3))) in
                let blend dest k :=
                  image_set dest (destP + k)
                    (nadd (nmul (num_of_byte (data_get (img_data dest) (destP + k)))
                                (option_map (fun al => 1 - al) alpha))
                          (nmul (num_of_byte (data_get src (srcP + k))) alpha)) in
                blend (blend (blend dest 0%Z) 1%Z) 2%Z)
              (Zrange by1 by2) dest
          else dest)
        (Zrange bx1 bx2) (backImageData display) in
    mkDisplay dest (zBuffer display)
  | SRGBA col =>
    let dest :=
      fold_left (fun dest x =>
          if spriteInFront display sprite x then
            fold_left (fun dest y =>
                let destP := ((y * W + x) * 4)%Z in
                let alpha := a col in
                let blend dest k (ch : Q) :=
                  image_set dest (destP + k)
                    (nadd (nmul (num_of_byte (data_get (img_data dest) (destP + k)))
                                (Some (1 - alpha)))
                          (Some (ch * 255 * alpha))) in
                blend (blend (blend dest 0%Z (r col)) 1%Z (g col)) 2%Z (b col))
              (Zrange by1 by2) dest
          else dest)
        (Zrange bx1 bx2) (backImageData display) in
    mkDisplay dest (zBuffer display)
  end.

(** [renderSprites]: the sprites are drawn in the order of the array. *)
Definition renderSprites (display : Display) (sprites : list Sprite) : Display :=
  fold_left renderSprite sprites display.

(* ------------------------------------------------------------------ *)
(** ** Items, bombs and particles *)

(** [type ItemKind = 'key' | 'bomb']. *)
Inductive ItemKind := kind_key | kind_bomb.

Record Item := mkItem {
  kind : ItemKind;
  alive : bool;
  item_position : Vector2.t
}.

Record Bomb := mkBomb {
  bomb_position : Vector3.t;
  velocity : Vector3.t;
  lifetime : Q
}.

(** [interface Particle] has the fields of [Bomb]: one structural type. *)
Definition Particle := Bomb.

Definition allocateBombs (capacity : nat) : list Bomb :=
  repeat (mkBomb (Vector3.new 0 0 0) (Vector3.new 0 0 0) 0) capacity.

Definition allocateParticles (capacity : nat) : list Particle :=
  repeat (mkBomb (Vector3.new 0 0 0) (Vector3.new 0 0 0) 0) capacity.

(** The three sounds of [Assets]; a call of [playSound] is recorded with the
    volume it sets. *)
Inductive Sound := bombRicochetSound | itemPickupSound | bombBlastSound.

Record Assets := mkAssets {
  keyImageData : ImageData;
  bombImageData : ImageData
}.

(** What the updates use of the host besides [Math]: how many numbers
    [Math.random] has given, and the sounds played so far. *)
Record HostState := mkHostState {
  randomCalls : nat;
  played : list (Sound * Q)
}.

Definition clamp (value min max : Q) : Q := Math_min (Math_max value min) max.

Section WithHost.
Context `{Host}.

Definition playSound (hs : HostState) (sound : Sound)
    (playerPosition objectPosition : Vector2.t) : HostState :=
  let maxVolume := 1 in
  let distanceToPlayer := Vector2.distanceTo objectPosition playerPosition in
  mkHostState (randomCalls hs)
    (played hs ++ [(sound, clamp (maxVolume / distanceToPlayer) 0 1)]).

(** The bomb that [throwBomb] writes into the first free slot. *)
Definition thrownBomb (player : Player) : Bomb :=
  mkBomb (Vector3.copy2 (position player) (6 # 10))
         (Vector3.scale
            (Vector3.new (Math_cos (direction player)) (Math_sin (direction player)) (1 # 2))
            BOMB_THROW_VELOCITY)
         BOMB_LIFETIME.

Fixpoint throwBomb (player : Player) (bombs : list Bomb) : list Bomb :=
  match bombs with
  | [] => []
  | bomb :: rest =>
    if Qle_bool (lifetime bomb) 0
    then thrownBomb player :: rest
    else bomb :: throwBomb player rest
  end.

Definition spriteOfItemKind (itemKind : ItemKind) (assets : Assets) : ImageData :=
  match itemKind with
  | kind_key => keyImageData assets
  | kind_bomb => bombImageData assets
  end.

Fixpoint updateItems (spritePool : SpritePool) (time : Q) (player : Player)
    (items : list Item) (assets : Assets) (hs : HostState)
  : SpritePool * list Item * HostState :=
  match items with
  | [] => (spritePool, [], hs)
  | item :: rest =>
    let picked :=
      alive item
      && Qlt_bool (Vector2.sqrDistanceTo (position player) (item_position item))
                  (PLAYER_RADIUS * PLAYER_RADIUS) in
    let hs1 :=
      if picked then playSound hs itemPickupSound (position player) (item_position item)
      else hs in
    let item1 := if picked then mkItem (kind item) false (item_position item) else item in
    let pool1 :=
      if alive item1
      then pushSprite spritePool (SImageData (spriteOfItemKind (kind item1) assets))
             (item_position item1)
             ((1 # 4) + ITEM_AMP
              - ITEM_AMP * Math_sin (ITEM_FREQ * Math_PI * time
                                     + Vector2.x (item_position item1)
                                     + Vector2.y (item_position item1)))
             (1 # 4)
      else spritePool in
    let '(pool2, rest', hs2) := updateItems pool1 time player rest assets hs1 in
    (pool2, item1 :: rest', hs2)
  end.

(** The body of the loop of [updateParticles] for a particle that is alive. *)
Definition updateParticle (spritePool : SpritePool) (deltaTime : Q) (scene : Scene)
    (particle : Particle) : SpritePool * Particle :=
  if Qlt_bool 0 (lifetime particle) then
    let lifetime1 := lifetime particle - deltaTime in
    let pos := bomb_position particle in
    let vel1 := Vector3.new (Vector3.x (velocity particle)) (Vector3.y (velocity particle))
                  (Vector3.z (velocity particle) - PARTICLE_GRAVITY * deltaTime) in
    let nx := Vector3.x pos + Vector3.x vel1 * deltaTime in
    let ny := Vector3.y pos + Vector3.y vel1 * deltaTime in
    let '(pos2, vel2) :=
      if sceneIsWall scene (Vector2.new nx ny) then
        let dx := Z.abs (Qfloor (Vector3.x pos) - Qfloor nx) in
        let dy := Z.abs (Qfloor (Vector3.y pos) - Qfloor ny) in
        let vx := if (0 <? dx)%Z then Vector3.x vel1 * -1 else Vector3.x vel1 in
        let vy := if (0 <? dy)%Z then Vector3.y vel1 * -1 else Vector3.y vel1 in
        (pos, Vector3.scale (Vector3.new vx vy (Vector3.z vel1)) PARTICLE_DAMP)
      else (Vector3.new nx ny (Vector3.z pos), vel1) in
    let nz := Vector3.z pos2 + Vector3.z vel2 * deltaTime in
    let '(pos3, vel3) :=
      if Qlt_bool nz PARTICLE_SCALE || Qlt_bool 1 nz then
        (pos2, Vector3.scale
                 (Vector3.new (Vector3.x vel2) (Vector3.y vel2) (Vector3.z vel2 * -1))
                 PARTICLE_DAMP)
      else (Vector3.new (Vector3.x pos2) (Vector3.y pos2) nz, vel2) in
    let pool1 :=
      if Qlt_bool 0 lifetime1
      then pushSprite spritePool (SRGBA PARTICLE_COLOR)
             (Vector2.new (Vector3.x pos3) (Vector3.y pos3)) (Vector3.z pos3) PARTICLE_SCALE
      else spritePool in
    (pool1, mkBomb pos3 vel3 lifetime1)
  else (spritePool, particle).

Fixpoint updateParticles (spritePool : SpritePool) (deltaTime : Q) (scene : Scene)
    (particles : list Particle) : SpritePool * list Particle :=
  match particles with
  | [] => (spritePool, [])
  | particle :: rest =>
    let (pool1, particle1) := updateParticle spritePool deltaTime scene particle in
    let (pool2, rest') := updateParticles pool1 deltaTime scene rest in
    (pool2, particle1 :: rest')
  end.

(** The particle that [emitParticle] writes into a free slot; it takes the
    next three numbers of [Math.random]. *)
Definition emittedParticle (source : Vector3.t) (n : nat) : Particle :=
  let angle := Math_random n * 2 * Math_PI in
  mkBomb source
    (Vector3.scale
       (Vector3.new (Math_cos angle) (Math_sin angle)
          (Math_random (n + 1) * (1 # 2) + (1 # 2)))
       (PARTICLE_MAX_SPEED * Math_random (n + 2)))
    PARTICLE_LIFETIME.

Fixpoint emitParticle (source : Vector3.t) (particles : list Particle) (hs : HostState)
  : list Particle * HostState :=
  match particles with
  | [] => ([], hs)
  | particle :: rest =>
    if Qle_bool (lifetime particle) 0
    then (emittedParticle source (randomCalls hs) :: rest,
          mkHostState (randomCalls hs + 3) (played hs))
    else
      let (rest', hs') := emitParticle source rest hs in
      (particle :: rest', hs')
  end.

Fixpoint emitParticles (count : nat) (source : Vector3.t) (particles : list Particle)
    (hs : HostState) : list Particle * HostState :=
  match count with
  | O => (particles, hs)
  | S count' =>
    let (particles1, hs1) := emitParticle source particles hs in
    emitParticles count' source particles1 hs1
  end.

(** What [updateBombs] threads through its loop besides the bombs. *)
Record UpdateState := mkUpdateState {
  us_pool : SpritePool;
  us_particles : list Particle;
  us_host : HostState
}.

(** The body of the loop of [updateBombs]. *)
Definition updateBomb (st : UpdateState) (player : Player) (scene : Scene)
    (deltaTime : Q) (assets : Assets) (bomb : Bomb) : UpdateState * Bomb :=
  if Qlt_bool 0 (lifetime bomb) then
    let lifetime1 := lifetime bomb - deltaTime in
    let pos := bomb_position bomb in
    let vel1 := Vector3.new (Vector3.x (velocity bomb)) (Vector3.y (velocity bomb))
                  (Vector3.z (velocity bomb) - BOMB_GRAVITY * deltaTime) in
    let nx := Vector3.x pos + Vector3.x vel1 * deltaTime in
    let ny := Vector3.y pos + Vector3.y vel1 * deltaTime in
    let '(pos2, vel2, hs2) :=
      if sceneIsWall scene (Vector2.new nx ny) then
        let dx := Z.abs (Qfloor (Vector3.x pos) - Qfloor nx) in
        let dy := Z.abs (Qfloor (Vector3.y pos) - Qfloor ny) in
        let vx := if (0 <? dx)%Z then Vector3.x vel1 * -1 else Vector3.x vel1 in
        let vy := if (0 <? dy)%Z then Vector3.y vel1 * -1 else Vector3.y vel1 in
        let vel := Vector3.scale (Vector3.new vx vy (Vector3.z vel1)) BOMB_DAMP in
        (pos, vel,
         if Qlt_bool 1 (Vector3.length vel)
         then playSound (us_host st) bombRicochetSound (position player) (Vector3.clone2 pos)
         else us_host st)
      else (Vector3.new nx ny (Vector3.z pos), vel1, us_host st) in
    let nz := Vector3.z pos2 + Vector3.z vel2 * deltaTime in
    let '(pos3, vel3, hs3) :=
      if Qlt_bool nz BOMB_SCALE || Qlt_bool 1 nz then
        let vel := Vector3.scale
                     (Vector3.new (Vector3.x vel2) (Vector3.y vel2) (Vector3.z vel2 * -1))
                     BOMB_DAMP in
        (pos2, vel,
         if Qlt_bool 1 (Vector3.length vel)
         then playSound hs2 bombRicochetSound (position player) (Vector3.clone2 pos2)
         else hs2)
      else (Vector3.new (Vector3.x pos2) (Vector3.y pos2) nz, vel2, hs2) in
    if Qle_bool lifetime1 0 then
      let hs4 := playSound hs3 bombBlastSound (position player) (Vector3.clone2 pos3) in
      let (particles', hs5) :=
        emitParticles BOMB_PARTICLE_COUNT pos3 (us_particles st) hs4 in
      (mkUpdateState (us_pool st) particles' hs5, mkBomb pos3 vel3 lifetime1)
    else
      (mkUpdateState
         (pushSprite (us_pool st) (SImageData (bombImageData assets))
            (Vector2.new (Vector3.x pos3) (Vector3.y pos3)) (Vector3.z pos3) BOMB_SCALE)
         (us_particles st) hs3,
       mkBomb pos3 vel3 lifetime1)
  else (st, bomb).

Fixpoint updateBombs (st : UpdateState) (player : Player) (bombs : list Bomb)
    (scene : Scene) (deltaTime : Q) (assets : Assets) : UpdateState * list Bomb :=
  match bombs with
  | [] => (st, [])
  | bomb :: rest =>
    let (st1, bomb1) := updateBomb st player scene deltaTime assets bomb in
    let (st2, rest') := updateBombs st1 player rest scene deltaTime assets in
    (st2, bomb1 :: rest')
  end.

End WithHost.

(* ------------------------------------------------------------------ *)
(** ** The frame *)

Record Game := mkGame {
  game_player : Player;
  game_scene : Scene;
  game_items : list Item;
  game_bombs : list Bomb;
  game_visibleSprites : list Sprite;
  game_spritePool : SpritePool;
  game_particles : list Particle;
  game_assets : Assets
}.

Section WithHost.
Context `{Host}.

(** The first half of [renderGame]: the pool reset and the four updates. *)
Definition updateGame (deltaTime time : Q) (game : Game) (hs : HostState)
  : Game * HostState :=
  let pool0 := spritePoolReset (game_spritePool game) in
  let player1 := updatePlayer (game_player game) (game_scene game) deltaTime in
  let '(pool1, items1, hs1) :=
    updateItems pool0 time player1 (game_items game) (game_assets game) hs in
  let (st2, bombs1) :=
    updateBombs (mkUpdateState pool1 (game_particles game) hs1) player1
      (game_bombs game) (game_scene game) deltaTime (game_assets game) in
  let (pool3, particles1) :=
    updateParticles (us_pool st2) deltaTime (game_scene game) (us_particles st2) in
  (mkGame player1 (game_scene game) items1 bombs1 (game_visibleSprites game)
     pool3 particles1 (game_assets game),
   us_host st2).

(** [renderGame].  The calls that only draw on the canvas of the host
    ([displaySwapBackImageData], [renderMinimap], [renderFPS]) read the game
    and the back buffer and write neither; they are left out.  [None]: a ray
    ran out of fuel, or [cullSprites] threw. *)
Definition renderGame (fuel : nat) (display : Display) (deltaTime time : Q)
    (game : Game) (hs : HostState) : option (Display * Game * HostState) :=
  let (game1, hs1) := updateGame deltaTime time game hs in
  let img1 := renderFloorAndCeiling (backImageData display) (game_player game1) in
  match renderWalls fuel (mkDisplay img1 (zBuffer display))
          (game_player game1) (game_scene game1) with
  | None => None
  | Some display2 =>
    match cullSprites (game_player game1) (game_spritePool game1) with
    | None => None
    | Some (pool', visible) =>
      Some (renderSprites display2 visible,
            mkGame (game_player game1) (game_scene game1) (game_items game1)
              (game_bombs game1) visible pool' (game_particles game1)
              (game_assets game1),
            hs1)
    end
  end.

End WithHost.

(* ------------------------------------------------------------------ *)
(** ** A concrete host *)

(** Truncated power series for cosine and sine and an integer square root,
    each rounded down to twelve decimals, pi to fifteen decimals, and a fixed
    sequence for [Math.random].  As in every host, the cosine of 0 is 1, the
    sine of 0 is 0 and the square root of the square of a short decimal is
    exact. *)
Definition round12 (v : Q) : Q :=
  Qred (Qfloor (v * 1000000000000) # 1000000000000).

Definition ref_cos (v : Q) : Q :=
  let v2 := Qred (v * v) in
  round12 (1 - v2 * (1 # 2) * (1 - v2 * (1 # 12) * (1 - v2 * (1 # 30)
         * (1 - v2 * (1 # 56) * (1 - v2 * (1 # 90)))))).

Definition ref_sin (v : Q) : Q :=
  let v2 := Qred (v * v) in
  round12 (v * (1 - v2 * (1 # 6) * (1 - v2 * (1 # 20) * (1 - v2 * (1 # 42)
         * (1 - v2 * (1 # 72) * (1 - v2 * (1 # 110))))))).

Definition ref_sqrt (v : Q) : Q :=
  let s := (10 ^ 12)%Z in
  Qred (Z.sqrt (Qnum v * s * s / Z.pos (Qden v)) # 1000000000000).

Definition ref_PI : Q := 3141592653589793 # 1000000000000000.

#[export] Instance refHost : Host := {
  Math_cos := ref_cos;
  Math_sin := ref_sin;
  Math_sqrt := ref_sqrt;
  Math_PI := ref_PI;
  Math_random := fun n => inject_Z (Z.of_nat (n mod 10)) / 10
}.

(* ------------------------------------------------------------------ *)
(** ** The words of the specification *)

(** [u] is the unit vector of [w], in the words of the specification: of
    length 1 and a positive multiple of [w]. *)
Definition isUnitVectorOf (u w : Vector3.t) : Prop :=
  Vector3.sqrLength u == 1
  /\ exists k, 0 < k /\ Vector3.eq u (Vector3.scale w k).

(** The collision box of the player, 0.5 by 0.5 and centred at [pos], meets
    no wall: every cell [i, i+1) x [j, j+1) that meets
    [pos.x - 0.25, pos.x + 0.25] x [pos.y - 0.25, pos.y + 0.25] is free. *)
Definition playerBoxClear (scene : Scene) (pos : Vector2.t) : Prop :=
  forall i j : Z,
    inject_Z i <= Vector2.x pos + (1 # 4) ->
    Vector2.x pos - (1 # 4) < inject_Z i + 1 ->
    inject_Z j <= Vector2.y pos + (1 # 4) ->
    Vector2.y pos - (1 # 4) < inject_Z j + 1 ->
    sceneIsWall scene (Vector2.new (inject_Z i) (inject_Z j)) = false.

(** [a] may be drawn before [b]: it is not nearer. *)
Definition notNearer (a b : Sprite) : Prop := pdist b <= pdist a.




Definition quietBody (scene : Scene) (low : Q) (body : Bomb) : Prop :=
  0 < lifetime body ->
  sceneIsWall scene (Vector3.clone2 (bomb_position body)) = false
  /\ low <= Vector3.z (bomb_position body) <= 1.



(* ------------------------------------------------------------------ *)
(** ** Explicit inputs *)

(** A scene of a single cell, a solid wall. *)
Definition scene_one_wall : Scene := createScene [[TRGBA (mkRGBA (1 # 10) 0 0 1)]].

(** A solid red wall. *)
Definition wall_red : Tile := TRGBA (mkRGBA 1 0 0 1).

(** The grid of the scenarios of the specification: 7 by 7, with walls at
    (2,0), (3,0) and (4,0). *)
Definition scene_7x7 : Scene :=
  createScene
    [[TNull; TNull; wall_red; wall_red; wall_red; TNull; TNull];
     [TNull; TNull; TNull; TNull; TNull; TNull; TNull];
     [TNull; TNull; TNull; TNull; TNull; TNull; TNull];
     [TNull; TNull; TNull; TNull; TNull; TNull; TNull];
     [TNull; TNull; TNull; TNull; TNull; TNull; TNull];
     [TNull; TNull; TNull; TNull; TNull; TNull; TNull];
     [TNull; TNull; TNull; TNull; TNull; TNull; TNull]].

(** A solid wall of the colour (0.1, 0.2, 0.3). *)
Definition wall_dim : Tile := TRGBA (mkRGBA (1 # 10) (2 # 10) (3 # 10) 1).

(** A closed room of 3 by 3 cells: solid walls around the free cell (1,1). *)
Definition scene_room : Scene :=
  createScene
    [[wall_dim; wall_dim; wall_dim];
     [wall_dim; TNull; wall_dim];
     [wall_dim; wall_dim; wall_dim]].

(** A player in the open grid, looking east. *)
Definition player_east : Player :=
  mkPlayer (Vector2.new (7 # 2) (7 # 2)) (Vector2.new (36 # 10) (34 # 10))
    (Vector2.new (36 # 10) (36 # 10)) (Vector2.new 0 0) 0 false false false false.

(** A player below the wall row, walking north towards it. *)
Definition player_north : Player :=
  mkPlayer (Vector2.new (7 # 2) (13 # 10)) (Vector2.new 0 0) (Vector2.new 0 0)
    (Vector2.new 0 0) (- (3141592653589793 # 2000000000000000)) true false false false.

(** A player at the origin looking east, with the ends of its near-clip
    segment. *)
Definition player_origin : Player :=
  mkPlayer (Vector2.new 0 0) (Vector2.new (1 # 10) (- (1 # 10)))
    (Vector2.new (1 # 10) (1 # 10)) (Vector2.new 0 0) 0 false false false false.

(** A player in the middle of the room, looking east. *)
Definition player_room : Player :=
  mkPlayer (Vector2.new (3 # 2) (3 # 2)) (Vector2.new (16 # 10) (145 # 100))
    (Vector2.new (16 # 10) (155 # 100)) (Vector2.new 0 0) 0 false false false false.

(** A bomb in flight. *)
Definition bomb_flying : Bomb :=
  mkBomb (Vector3.new 1 1 (1 # 2)) (Vector3.new 1 0 0) 1.

(** A pool of two sprites, at (4, 3) and (4, -3): the same depth from the
    origin looking east. *)
Definition pool_tie : SpritePool :=
  pushSprite
    (pushSprite createSpritePool (SRGBA PARTICLE_COLOR) (Vector2.new 4 3) (1 # 2) (1 # 10))
    (SRGBA PARTICLE_COLOR) (Vector2.new 4 (- (3))) (1 # 2) (1 # 10).

(** A white texture of one pixel, for the two item images. *)
Definition image_white : ImageData := mkImageData 1 1 [255; 255; 255; 255]%Z.

(** Assets whose two images are that texture. *)
Definition assets_white : Assets := mkAssets image_white image_white.

(** The host before any frame: no random number drawn, no sound played. *)
Definition host_start : HostState := mkHostState 0 [].


(** The same room with the key out of reach and a bomb in flight three
    tenths of a cell ahead of the player, in front of the wall it faces. *)
Definition game_quiet : Game :=
  mkGame player_room scene_room
    [mkItem kind_key true (Vector2.new (3 # 2) (21 # 10))]
    [mkBomb (Vector3.new (18 # 10) (3 # 2) (6 # 10)) (Vector3.new 5 0 (5 # 2)) 2]
    [] createSpritePool (allocateParticles 3) assets_white.

(** A 4 by 4 display whose walls are all at depth 4. *)
Definition display_depth4 : Display :=
  mkDisplay (backImageData (createDisplay 4 4)) (fun _ => Some 4).

(** An opaque red sprite at depth 4 that covers the one pixel of column 1
    and row 2 of that display. *)
Definition sprite_depth4 : Sprite :=
  mkSprite (SRGBA (mkRGBA 1 0 0 1)) (Vector2.new 4 0) (1 # 2) 1 (1 # 10) 4 (1 # 2).

(** The same display with the walls one unit farther. *)
Definition display_depth5 : Display :=
  mkDisplay (backImageData (createDisplay 4 4)) (fun _ => Some 5).

(* ------------------------------------------------------------------ *)
(** ** Measures used by the further properties *)

(** The length of the longest row. *)
Definition maxRowLength (rows : list (list Tile)) : nat :=
  fold_left Nat.max (map (@List.length Tile) rows) 0%nat.

(** A row as [createScene] stores it in a grid of [w] columns. *)
Definition paddedRow (w : nat) (row : list Tile) : list Tile :=
  row ++ repeat TNull (w - List.length row).

(** The sprite pool as the frame uses it: the cursor [length] is within the
    array of slots. *)
Definition poolOk (spritePool : SpritePool) : Prop :=
  (length spritePool <= List.length (items spritePool))%nat.

(** What the engine keeps of a frame buffer whatever it draws: the size, and
    the alpha byte of every pixel. *)
Definition alphaKept (img img' : ImageData) : Prop :=
  img_width img' = img_width img
  /\ img_height img' = img_height img
  /\ List.length (img_data img') = List.length (img_data img)
  /\ forall i : Z, (i mod 4 = 3)%Z ->
       data_get (img_data img') i = data_get (img_data img) i.

(** A slot of the bomb or particle pool that can be taken: its lifetime is
    at most 0. *)
Definition isFree (body : Bomb) : bool := Qle_bool (lifetime body) 0.

Definition freeCount (bodies : list Bomb) : nat :=
  List.length (filter isFree bodies).


(** [renderFPS]: what it does to the module's array [dts] (push the sample,
    drop the oldest beyond 60) and the number it prints, which is the one
    of the source when the average is not 0; the calls that set the font and
    draw the text on the canvas are left out. *)
Definition renderFPS (dts : list Q) (deltaTime : Q) : list Q * Q :=
  let dts1 := dts ++ [deltaTime] in
  let dts2 := if (60 <? List.length dts1)%nat then tl dts1 else dts1 in
  let dtAvg := fold_left Qplus dts2 0 / inject_Z (Z.of_nat (List.length dts2)) in
  (dts2, Math_floor (1 / dtAvg)).

(** The host after some more of a frame: [Math.random] has been called at
    least as often, and the sounds played are the ones before followed by
    sounds of a volume that an audio element accepts. *)
Definition hostLater (hs hs' : HostState) : Prop :=
  (randomCalls hs <= randomCalls hs')%nat
  /\ exists more,
       played hs' = played hs ++ more
       /\ Forall (fun sv : Sound * Q => 0 <= snd sv /\ snd sv <= 1) more.

(** The samples that [dts] holds after [renderFPS] has run once for each
    frame time of [samples], from the empty array of the module. *)
Definition fpsWindow (samples : list Q) : list Q :=
  fold_left (fun dts deltaTime => fst (renderFPS dts deltaTime)) samples [].

(** The first whole number whose successor is no double, 2^53. *)
Definition two_53 : Q := inject_Z (2 ^ 53).

(** A player with the four keys held down. *)
Definition player_all_keys : Player :=
  mkPlayer (Vector2.new (7 # 2) (7 # 2)) (Vector2.new (36 # 10) (34 # 10))
    (Vector2.new (36 # 10) (36 # 10)) (Vector2.new 0 0) 0 true true true true.

(** Two doubles one cell apart on the row y = 0.5, at x = 2^34 - 1 and
    x = 2^34, where the step between doubles is 2^-18, more than [EPS]. *)
Definition far_p1 : Vector2.t := Vector2.new (inject_Z (2 ^ 34 - 1)) (1 # 2).
Definition far_p2 : Vector2.t := Vector2.new (inject_Z (2 ^ 34)) (1 # 2).

(** Rows of unequal length: the second is one tile short. *)
Definition rows_ragged : list (list Tile) := [[wall_red; TNull]; [TNull]].

(* ================================================================== *)
(** * Properties *)


(** ** Comparisons and rounding *)

Lemma Qlt_bool_iff (u v : Q) : Qlt_bool u v = true <-> u < v.
Proof.
  unfold Qlt_bool. rewrite negb_true_iff.
  split; intro Hlt.
  - apply Qnot_le_lt. intro Hle. apply Qle_bool_iff in Hle. congruence.
  - destruct (Qle_bool v u) eqn:E; [|reflexivity].
    apply Qle_bool_iff in E. exfalso. apply (Qlt_not_le _ _ Hlt E).
Qed.

Lemma Qlt_bool_false_iff (u v : Q) : Qlt_bool u v = false <-> v <= u.
Proof.
  unfold Qlt_bool. rewrite negb_false_iff. apply Qle_bool_iff.
Qed.

Lemma Qle_bool_false_iff (u v : Q) : Qle_bool u v = false <-> v < u.
Proof.
  rewrite <- Qlt_bool_iff. unfold Qlt_bool.
  destruct (Qle_bool u v); simpl; intuition congruence.
Qed.

Lemma Qfloor_lt_0 (v : Q) : (Qfloor v < 0)%Z -> v < 0.
Proof.
  intro Hf. pose proof (Qlt_floor v) as Hlt.
  assert (Hle : inject_Z (Qfloor v + 1) <= 0).
  { change 0 with (inject_Z 0). rewrite <- Zle_Qle. lia. }
  lra.
Qed.

(** ** Rounding to a double *)

Lemma pow2_Qpower (k : Z) : pow2 k == 2 ^ k.
Proof.
  unfold pow2. destruct (Z.leb_spec 0 k) as [Hk | Hk].
  - rewrite Zpower_Qpower by exact Hk. reflexivity.
  - replace k with (- (- k))%Z at 2 by lia.
    rewrite Qpower_opp.
    assert (Hz : (0 < 2 ^ (- k))%Z) by (apply Z.pow_pos_nonneg; lia).
    rewrite <- (Zpower_Qpower 2 (- k)) by lia.
    destruct (2 ^ (- k))%Z as [| z | z] eqn:E; try lia.
    cbn [Z.to_pos]. unfold Qinv, inject_Z. cbn [Qnum Qden]. reflexivity.
Qed.

Lemma pow2_pos (k : Z) : 0 < pow2 k.
Proof. rewrite pow2_Qpower. apply Qpower_0_lt. reflexivity. Qed.

Lemma pow2_add (i j : Z) : pow2 (i + j) == pow2 i * pow2 j.
Proof. rewrite !pow2_Qpower. apply Qpower_plus. discriminate. Qed.

Lemma pow2_le_inv (i j : Z) : pow2 i <= pow2 j -> (i <= j)%Z.
Proof.
  rewrite !pow2_Qpower. intro Hle.
  apply (Qpower_le_compat_l_inv 2); [exact Hle | reflexivity].
Qed.

Lemma pow2_nonneg (k : Z) : (0 <= k)%Z -> pow2 k = inject_Z (2 ^ k).
Proof. intro Hk. unfold pow2. destruct (Z.leb_spec 0 k); [reflexivity | lia]. Qed.

(** The binade found is not above the number. *)
Lemma binade_lower (q : Q) : ~ q == 0 -> pow2 (binade q) <= Qabs q.
Proof.
  intro Hq. unfold binade.
  set (n := Z.abs (Qnum q)). set (d := Z.pos (Qden q)).
  set (e := (Z.log2 n - Z.log2 d)%Z).
  destruct (Qle_bool (pow2 e) (Qabs q)) eqn:E; [apply Qle_bool_iff; exact E |].
  assert (Hn : (0 < n)%Z).
  { unfold n. destruct q as [qn qd]. cbn [Qnum]. unfold Qeq in Hq. cbn in Hq. lia. }
  assert (Hd : (0 < d)%Z) by (unfold d; lia).
  destruct (Z.log2_spec n Hn) as [Hn1 _].
  destruct (Z.log2_spec d Hd) as [_ Hd2].
  assert (Ha : (0 <= Z.log2 n)%Z) by apply Z.log2_nonneg.
  assert (Hb : (0 <= Z.log2 d)%Z) by apply Z.log2_nonneg.
  assert (Habs : Qabs q == inject_Z n / inject_Z d).
  { destruct q as [qn qd]. unfold n, d. cbn [Qabs Qnum Qden]. apply Qmake_Qdiv. }
  assert (Hdq : 0 < inject_Z d) by (change 0 with (inject_Z 0); rewrite <- Zlt_Qlt; exact Hd).
  rewrite Habs. apply Qle_shift_div_l; [exact Hdq |].
  assert (Hsplit : pow2 (Z.log2 n) == pow2 (e - 1) * pow2 (Z.succ (Z.log2 d))).
  { rewrite <- pow2_add. unfold e. replace (Z.log2 n - Z.log2 d - 1 + Z.succ (Z.log2 d))%Z
      with (Z.log2 n) by lia. reflexivity. }
  rewrite (pow2_nonneg (Z.log2 n)) in Hsplit by exact Ha.
  rewrite (pow2_nonneg (Z.succ (Z.log2 d))) in Hsplit by lia.
  assert (Hnq : inject_Z (2 ^ Z.log2 n) <= inject_Z n) by (rewrite <- Zle_Qle; exact Hn1).
  assert (Hdq2 : inject_Z d <= inject_Z (2 ^ Z.succ (Z.log2 d)))
    by (rewrite <- Zle_Qle; lia).
  pose proof (pow2_pos (e - 1)) as Hp.
  apply Qle_trans with (pow2 (e - 1) * inject_Z (2 ^ Z.succ (Z.log2 d))).
  - apply Qmult_le_l; [exact Hp | exact Hdq2].
  - rewrite <- Hsplit. exact Hnq.
Qed.

Lemma roundHalfEven_whole (q : Q) (j : Z) : q == inject_Z j -> roundHalfEven q = j.
Proof.
  intro Hq. unfold roundHalfEven.
  assert (Hf : Qfloor q = j) by (rewrite Hq; apply Qfloor_Z).
  rewrite Hf.
  assert (Hlt : q - inject_Z j < 1 # 2) by (rewrite Hq; unfold Qminus; rewrite Qplus_opp_r; reflexivity).
  rewrite (proj1 (Qlt_alt _ _) Hlt). reflexivity.
Qed.

(** A number that is a whole multiple of the step of its binade is a
    double. *)
Lemma fl_on_grid (q : Q) (j : Z) :
  ~ q == 0 ->
  q == inject_Z j * pow2 (Z.max (binade q - 52) (- 1074)) ->
  fl q == q.
Proof.
  intros Hq Hj. unfold fl.
  destruct (Qeq_bool q 0) eqn:E; [apply Qeq_bool_iff in E; contradiction |].
  cbv zeta. set (k := Z.max (binade q - 52) (- 1074)) in *.
  pose proof (pow2_pos k) as Hp.
  assert (Hdiv : q / pow2 k == inject_Z j).
  { rewrite Hj. field. intro Hc. rewrite Hc in Hp. discriminate. }
  rewrite (roundHalfEven_whole _ _ Hdiv), Qred_correct. symmetry. exact Hj.
Qed.

(** Every whole number up to [2^53] either way is a double. *)
Lemma fl_whole (q : Q) (n : Z) :
  q == inject_Z n -> (Z.abs n <= 2 ^ 53)%Z -> fl q == inject_Z n.
Proof.
  intros Hq Hn.
  destruct (Z.eq_dec n 0) as [-> | Hn0].
  - unfold fl. assert (E : Qeq_bool q 0 = true) by (apply Qeq_bool_iff; exact Hq).
    rewrite E. reflexivity.
  - assert (Hq0 : ~ q == 0).
    { rewrite Hq. intro Hc. apply Hn0. unfold Qeq in Hc. cbn in Hc. lia. }
    pose proof (binade_lower q Hq0) as Hlow.
    assert (Habs : Qabs q == inject_Z (Z.abs n)).
    { rewrite Hq. unfold Qabs, inject_Z. reflexivity. }
    rewrite Habs in Hlow.
    assert (He : (binade q <= 53)%Z).
    { apply pow2_le_inv. rewrite (pow2_nonneg 53) by lia.
      eapply Qle_trans; [exact Hlow |]. rewrite <- Zle_Qle. exact Hn. }
    set (k := Z.max (binade q - 52) (- 1074)).
    assert (Hgrid : exists j, q == inject_Z j * pow2 k).
    { destruct (Z.le_gt_cases k 0) as [Hk | Hk].
      - exists (n * 2 ^ (- k))%Z. rewrite inject_Z_mult, Hq.
        rewrite <- (pow2_nonneg (- k)) by lia.
        rewrite <- Qmult_assoc, <- pow2_add.
        replace (- k + k)%Z with 0%Z by lia. change (pow2 0) with 1. ring.
      - assert (Hk1 : k = 1%Z) by (unfold k in *; lia).
        assert (He53 : binade q = 53%Z) by (unfold k in *; lia).
        rewrite He53, (pow2_nonneg 53) in Hlow by lia.
        rewrite <- Zle_Qle in Hlow.
        assert (Hn53 : Z.abs n = (2 ^ 53)%Z) by lia.
        exists (n / 2)%Z. rewrite Hk1, Hq.
        change (pow2 1) with (inject_Z 2). rewrite <- inject_Z_mult.
        apply inject_Z_injective.
        destruct (Z.abs_eq_or_opp n) as [Ha | Ha]; rewrite Ha in Hn53.
        + rewrite Hn53. reflexivity.
        + assert (Hneg : n = (- 2 ^ 53)%Z) by lia. rewrite Hneg. reflexivity. }
    destruct Hgrid as [j Hj].
    rewrite (fl_on_grid q j Hq0 Hj). exact Hq.
Qed.

(** ** The scene *)

Lemma floors_sum (p : Vector2.t) :
  Math_floor (Vector2.x p) + Math_floor (Vector2.y p)
  == inject_Z (Qfloor (Vector2.x p) + Qfloor (Vector2.y p)).
Proof. unfold Math_floor. rewrite inject_Z_plus. reflexivity. Qed.

(** C4, as the code has it: while the sum of the two floors is at most
    2^53 either way, so that the host adds them without rounding,
    [sceneGetFloor] gives [SCENE_FLOOR1] exactly when floor(x) + floor(y) is
    even and [SCENE_FLOOR2] otherwise, and [sceneGetCeiling] does the same
    with [SCENE_CEILING1] and [SCENE_CEILING2]; negative coordinates are
    included, the remainder of the language being 0 exactly when the
    mathematical one is.  The tones are the doubles of the source:
    [SCENE_FLOOR1] = (0.094, 0.14400000000000002, 0.14400000000000002, 1),
    [SCENE_FLOOR2] = (0.188, 0.238, 0.238, 1), [SCENE_CEILING1] =
    (0.14400000000000002, 0.094, 0.094, 1) and [SCENE_CEILING2] =
    (0.238, 0.188, 0.188, 1), each decimal standing for the double nearest
    to it. *)
Theorem sceneGetFloor_ceiling_parity (p : Vector2.t) :
  let n := (Qfloor (Vector2.x p) + Qfloor (Vector2.y p))%Z in
  (Z.abs n <= 2 ^ 53)%Z ->
  (sceneGetFloor p = Some (TRGBA SCENE_FLOOR1) <-> (n mod 2 = 0)%Z)
  /\ ((n mod 2 <> 0)%Z -> sceneGetFloor p = Some (TRGBA SCENE_FLOOR2))
  /\ (sceneGetCeiling p = Some (TRGBA SCENE_CEILING1) <-> (n mod 2 = 0)%Z)
  /\ ((n mod 2 <> 0)%Z -> sceneGetCeiling p = Some (TRGBA SCENE_CEILING2))
  /\ (r SCENE_FLOOR1 == fl (94 # 1000)
      /\ g SCENE_FLOOR1 == fl (14400000000000002 # 100000000000000000)
      /\ b SCENE_FLOOR1 == fl (14400000000000002 # 100000000000000000)
      /\ a SCENE_FLOOR1 == 1)
  /\ (r SCENE_FLOOR2 == fl (188 # 1000) /\ g SCENE_FLOOR2 == fl (238 # 1000)
      /\ b SCENE_FLOOR2 == fl (238 # 1000) /\ a SCENE_FLOOR2 == 1)
  /\ (r SCENE_CEILING1 == fl (14400000000000002 # 100000000000000000)
      /\ g SCENE_CEILING1 == fl (94 # 1000)
      /\ b SCENE_CEILING1 == fl (94 # 1000) /\ a SCENE_CEILING1 == 1)
  /\ (r SCENE_CEILING2 == fl (238 # 1000) /\ g SCENE_CEILING2 == fl (188 # 1000)
      /\ b SCENE_CEILING2 == fl (188 # 1000) /\ a SCENE_CEILING2 == 1).
Proof.
  intros n Hn. unfold sceneGetFloor, sceneGetCeiling.
  assert (Hsum : Qfloor (fl (Math_floor (Vector2.x p) + Math_floor (Vector2.y p))) = n).
  { rewrite (fl_whole _ n (floors_sum p) Hn). apply Qfloor_Z. }
  rewrite Hsum.
  assert (Hrem : (Z.rem n 2 = 0 <-> n mod 2 = 0)%Z).
  { rewrite Z.rem_divide by lia. rewrite Z.mod_divide by lia. reflexivity. }
  assert (Hf : TRGBA SCENE_FLOOR1 <> TRGBA SCENE_FLOOR2).
  { intro Hc. apply (f_equal (fun t => match t with TRGBA c => Qden (r c) | _ => 1%positive end)) in Hc.
    revert Hc. vm_compute. discriminate. }
  assert (Hc : TRGBA SCENE_CEILING1 <> TRGBA SCENE_CEILING2).
  { intro Hc. apply (f_equal (fun t => match t with TRGBA c => Qden (r c) | _ => 1%positive end)) in Hc.
    revert Hc. vm_compute. discriminate. }
  assert (Htones :
    (r SCENE_FLOOR1 == fl (94 # 1000)
      /\ g SCENE_FLOOR1 == fl (14400000000000002 # 100000000000000000)
      /\ b SCENE_FLOOR1 == fl (14400000000000002 # 100000000000000000)
      /\ a SCENE_FLOOR1 == 1)
    /\ (r SCENE_FLOOR2 == fl (188 # 1000) /\ g SCENE_FLOOR2 == fl (238 # 1000)
      /\ b SCENE_FLOOR2 == fl (238 # 1000) /\ a SCENE_FLOOR2 == 1)
    /\ (r SCENE_CEILING1 == fl (14400000000000002 # 100000000000000000)
      /\ g SCENE_CEILING1 == fl (94 # 1000)
      /\ b SCENE_CEILING1 == fl (94 # 1000) /\ a SCENE_CEILING1 == 1)
    /\ (r SCENE_CEILING2 == fl (238 # 1000) /\ g SCENE_CEILING2 == fl (188 # 1000)
      /\ b SCENE_CEILING2 == fl (188 # 1000) /\ a SCENE_CEILING2 == 1)).
  { vm_compute. intuition reflexivity. }
  destruct (Z.rem n 2 =? 0)%Z eqn:E.
  - apply Z.eqb_eq in E. apply Hrem in E.
    split; [split; [intros _; exact E | reflexivity] |].
    split; [intro Hodd; contradiction |].
    split; [split; [intros _; exact E | reflexivity] |].
    split; [intro Hodd; contradiction |]. exact Htones.
  - apply Z.eqb_neq in E.
    assert (Hm : (n mod 2 <> 0)%Z) by (intro Hz; apply E, Hrem, Hz).
    split; [split; [intro Heq; exfalso; congruence
                   | intro Hz; contradiction] |].
    split; [reflexivity |].
    split; [split; [intro Heq; exfalso; congruence
                   | intro Hz; contradiction] |].
    split; [reflexivity |]. exact Htones.
Qed.

(** At a point left of and above the origin the sum of the floors is -1,
    the second tone; at one left of and below it the sum is -2, the
    first. *)
Lemma sceneGetFloor_ceiling_parity_witness :
  sceneGetFloor (Vector2.new (- (1 # 2)) (1 # 2)) = Some (TRGBA SCENE_FLOOR2)
  /\ sceneGetCeiling (Vector2.new (- (1 # 2)) (1 # 2)) = Some (TRGBA SCENE_CEILING2).
Proof.
  assert (Hn : (Z.abs (Qfloor (Vector2.x (Vector2.new (- (1 # 2)) (1 # 2)))
                      + Qfloor (Vector2.y (Vector2.new (- (1 # 2)) (1 # 2)))) <= 2 ^ 53)%Z).
  { vm_compute. discriminate. }
  destruct (sceneGetFloor_ceiling_parity (Vector2.new (- (1 # 2)) (1 # 2)) Hn)
    as [_ [Hfloor [_ [Hceiling _]]]].
  split; [apply Hfloor | apply Hceiling]; vm_compute; discriminate.
Defined.

Example sceneGetFloor_negative :
  sceneGetFloor (Vector2.new (- (1 # 2)) (1 # 2)) = Some (TRGBA SCENE_FLOOR2)
  /\ sceneGetCeiling (Vector2.new (- (1 # 2)) (- (1 # 2))) = Some (TRGBA SCENE_CEILING1).
Proof. split; vm_compute; reflexivity. Qed.

(** C4, as it is written, fails twice.  At the point (2^53, 1) the sum of
    the floors is 2^53 + 1, which is odd and no double: the host rounds it
    to 2^53, and the first tones are returned.  And the green of
    [SCENE_FLOOR1], the sum 0.094 + 0.05 as the host rounds it, is not the
    double 0.144 but the next one. *)
Lemma sceneGetFloor_parity_beyond_2_53 :
  ((Qfloor (Vector2.x (Vector2.new two_53 1)) + Qfloor (Vector2.y (Vector2.new two_53 1)))
     mod 2 <> 0)%Z
  /\ sceneGetFloor (Vector2.new two_53 1) = Some (TRGBA SCENE_FLOOR1)
  /\ sceneGetCeiling (Vector2.new two_53 1) = Some (TRGBA SCENE_CEILING1)
  /\ ~ g SCENE_FLOOR1 == fl (144 # 1000)
  /\ fl (144 # 1000) < g SCENE_FLOOR1.
Proof.
  split; [vm_compute; discriminate |].
  split; [vm_compute; reflexivity |].
  split; [vm_compute; reflexivity |].
  split; [intro Hc; revert Hc; vm_compute; discriminate | vm_compute; reflexivity].
Qed.

(** C9: at a point whose floored coordinate is below 0 or at or beyond the
    width or the height, [sceneGetTile] gives no tile ([undefined], which is
    the [Empty] variant), [sceneIsWall] is false, and both are total: there is
    nothing in them that can throw. *)
Theorem sceneGetTile_outside (scene : Scene) (p : Vector2.t) :
  inject_Z (Qfloor (Vector2.x p)) < 0
  \/ width scene <= inject_Z (Qfloor (Vector2.x p))
  \/ inject_Z (Qfloor (Vector2.y p)) < 0
  \/ height scene <= inject_Z (Qfloor (Vector2.y p)) ->
  sceneGetTile scene p = None
  /\ variant (sceneGetTile scene p) = Empty
  /\ sceneIsWall scene p = false.
Proof.
  intro Hout.
  assert (Hc : sceneContains scene p = false).
  { unfold sceneContains.
    pose proof (Qfloor_le (Vector2.x p)) as Hfx.
    pose proof (Qfloor_le (Vector2.y p)) as Hfy.
    destruct Hout as [Hx | [Hx | [Hy | Hy]]].
    - assert (Hneg : Vector2.x p < 0).
      { apply Qfloor_lt_0. rewrite Zlt_Qlt. exact Hx. }
      apply Qle_bool_false_iff in Hneg. rewrite Hneg. reflexivity.
    - assert (Hw : Qlt_bool (Vector2.x p) (width scene) = false).
      { apply Qlt_bool_false_iff. lra. }
      rewrite Hw. rewrite andb_false_r. reflexivity.
    - assert (Hneg : Vector2.y p < 0).
      { apply Qfloor_lt_0. rewrite Zlt_Qlt. exact Hy. }
      apply Qle_bool_false_iff in Hneg. rewrite Hneg.
      rewrite andb_false_r. reflexivity.
    - assert (Hh : Qlt_bool (Vector2.y p) (height scene) = false).
      { apply Qlt_bool_false_iff. lra. }
      rewrite Hh. rewrite andb_false_r. reflexivity. }
  assert (Ht : sceneGetTile scene p = None).
  { unfold sceneGetTile. rewrite Hc. reflexivity. }
  unfold sceneIsWall. rewrite Ht. repeat split.
Qed.

Lemma sceneGetTile_outside_witness :
  sceneGetTile scene_one_wall (Vector2.new (3 # 2) (1 # 2)) = None
  /\ variant (sceneGetTile scene_one_wall (Vector2.new (3 # 2) (1 # 2))) = Empty
  /\ sceneIsWall scene_one_wall (Vector2.new (3 # 2) (1 # 2)) = false.
Proof.
  apply (sceneGetTile_outside scene_one_wall (Vector2.new (3 # 2) (1 # 2))).
  right; left. vm_compute. discriminate.
Defined.

(** Inside the grid the same scene has its wall. *)
Example sceneIsWall_inside :
  sceneIsWall scene_one_wall (Vector2.new (1 # 2) (1 # 2)) = true.
Proof. reflexivity. Qed.

(** ** Bombs *)

Section Bombs.
Context `{Host}.

Lemma throwBomb_all_active (player : Player) (bombs : list Bomb) :
  Forall (fun bm => 0 < lifetime bm) bombs -> throwBomb player bombs = bombs.
Proof.
  induction 1 as [| bm rest Hbm _ IH]; simpl.
  - reflexivity.
  - apply Qle_bool_false_iff in Hbm. rewrite Hbm, IH. reflexivity.
Qed.

Lemma throwBomb_split (player : Player) (pre post : list Bomb) (free : Bomb) :
  Forall (fun bm => 0 < lifetime bm) pre ->
  lifetime free <= 0 ->
  throwBomb player (pre ++ free :: post) = pre ++ thrownBomb player :: post.
Proof.
  intros Hpre Hfree. induction Hpre as [| bm rest Hbm _ IH]; simpl.
  - apply Qle_bool_iff in Hfree. rewrite Hfree. reflexivity.
  - apply Qle_bool_false_iff in Hbm. rewrite Hbm, IH. reflexivity.
Qed.

(** C3, as the code has it: [throwBomb] rewrites the first bomb whose
    lifetime is at most 0 and no other; the new bomb has lifetime
    [BOMB_LIFETIME] = 2, position (player.x, player.y, 0.6) and velocity
    (cos direction, sin direction, 0.5) times [BOMB_THROW_VELOCITY] = 5, the
    triple being scaled as it is, without a normalisation.  With every bomb
    alive the array is unchanged. *)
Theorem throwBomb_first_free (player : Player) (pre post : list Bomb) (free : Bomb) :
  Forall (fun bm => 0 < lifetime bm) pre ->
  lifetime free <= 0 ->
  throwBomb player (pre ++ free :: post) = pre ++ thrownBomb player :: post
  /\ lifetime (thrownBomb player) == 2
  /\ bomb_position (thrownBomb player)
     = Vector3.new (Vector2.x (position player)) (Vector2.y (position player)) (6 # 10)
  /\ Vector3.eq (velocity (thrownBomb player))
       (Vector3.new (Math_cos (direction player) * 5)
                    (Math_sin (direction player) * 5) (5 # 2))
  /\ throwBomb player pre = pre.
Proof.
  intros Hpre Hfree. split; [apply throwBomb_split; assumption|].
  split; [reflexivity|]. split; [reflexivity|].
  split; [|apply throwBomb_all_active; assumption].
  unfold Vector3.eq, thrownBomb, Vector3.scale, BOMB_THROW_VELOCITY; simpl.
  repeat split; lra.
Qed.

End Bombs.

Lemma throwBomb_first_free_witness :
  throwBomb player_east ([bomb_flying] ++ mkBomb (Vector3.new 0 0 0) (Vector3.new 0 0 0) 0 :: [bomb_flying])
  = [bomb_flying] ++ thrownBomb player_east :: [bomb_flying]
  /\ lifetime (thrownBomb player_east) == 2
  /\ bomb_position (thrownBomb player_east) = Vector3.new (7 # 2) (7 # 2) (6 # 10)
  /\ Vector3.eq (velocity (thrownBomb player_east))
       (Vector3.new (Math_cos 0 * 5) (Math_sin 0 * 5) (5 # 2))
  /\ throwBomb player_east [bomb_flying] = [bomb_flying].
Proof.
  apply (throwBomb_first_free player_east [bomb_flying] [bomb_flying]
           (mkBomb (Vector3.new 0 0 0) (Vector3.new 0 0 0) 0)).
  - constructor; [reflexivity | constructor].
  - discriminate.
Defined.

(** C3, as it is written, fails: with the player facing east the velocity of
    the thrown bomb is (5, 0, 2.5), of squared length 31.25, and no unit
    vector scaled by 5 has that length. *)
Lemma throwBomb_velocity_not_unit :
  ~ exists u : Vector3.t,
      isUnitVectorOf u (Vector3.new (Math_cos (direction player_east))
                          (Math_sin (direction player_east)) (1 # 2))
      /\ Vector3.eq (velocity (nth 0 (throwBomb player_east (allocateBombs 1)) bomb_flying))
                    (Vector3.scale u BOMB_THROW_VELOCITY).
Proof.
  intros [u [[Hlen _] Heq]].
  unfold Vector3.eq, Vector3.sqrLength in *. simpl in Heq.
  destruct u as [ux uy uz]; simpl in *.
  destruct Heq as [Hx [Hy Hz]].
  change (ref_cos 0) with 1 in Hx. change (ref_sin 0) with 0 in Hy.
  unfold BOMB_THROW_VELOCITY in *.
  assert (Hux : ux == 1) by lra.
  assert (Huy : uy == 0) by lra.
  assert (Huz : uz == 1 # 2) by lra.
  rewrite Hux, Huy, Huz in Hlen. vm_compute in Hlen. discriminate.
Qed.

(** ** The player *)

Lemma Zseq_In (i lo : Z) (len : nat) :
  In i (Zseq lo len) <-> (lo <= i < lo + Z.of_nat len)%Z.
Proof.
  revert lo. induction len as [| n IH]; intro lo; simpl.
  - lia.
  - rewrite IH. lia.
Qed.

Lemma Zrange_In (i lo hi : Z) : In i (Zrange lo hi) <-> (lo <= i <= hi)%Z.
Proof. unfold Zrange. rewrite Zseq_In. lia. Qed.

(** An integer lies between the floors of two numbers exactly when its cell
    meets the interval between them. *)
Lemma between_floors (i : Z) (u v : Q) :
  (Qfloor u <= i <= Qfloor v)%Z <-> (u < inject_Z i + 1 /\ inject_Z i <= v).
Proof.
  pose proof (Qfloor_le u) as Hu. pose proof (Qlt_floor u) as Hu'.
  pose proof (Qfloor_le v) as Hv. pose proof (Qlt_floor v) as Hv'.
  rewrite inject_Z_plus in Hu', Hv'. change (inject_Z 1) with 1 in *.
  split.
  - intros [Hlo Hhi]. rewrite Zle_Qle in Hlo, Hhi. split; lra.
  - intros [Hlo Hhi]. split.
    + assert (Hlt : inject_Z (Qfloor u) < inject_Z (i + 1)).
      { rewrite inject_Z_plus. change (inject_Z 1) with 1. lra. }
      rewrite <- Zlt_Qlt in Hlt. lia.
    + apply Qfloor_resp_le in Hhi. rewrite Qfloor_Z in Hhi. exact Hhi.
Qed.

Lemma sceneCanRectangleFitHere_iff (scene : Scene) (px py sx sy : Q) :
  sceneCanRectangleFitHere scene px py sx sy = true <->
  forall i j : Z,
    (Qfloor (px - sx * (1 # 2)) <= i <= Qfloor (px + sx * (1 # 2)))%Z ->
    (Qfloor (py - sy * (1 # 2)) <= j <= Qfloor (py + sy * (1 # 2)))%Z ->
    sceneIsWall scene (Vector2.new (inject_Z i) (inject_Z j)) = false.
Proof.
  unfold sceneCanRectangleFitHere. rewrite forallb_forall. split.
  - intros Hall i j Hi Hj.
    apply Zrange_In in Hi. apply Zrange_In in Hj.
    specialize (Hall i Hi). rewrite forallb_forall in Hall.
    specialize (Hall j Hj). apply negb_true_iff in Hall. exact Hall.
  - intros Hfree i Hi. rewrite forallb_forall. intros j Hj.
    apply Zrange_In in Hi. apply Zrange_In in Hj.
    apply negb_true_iff. apply Hfree; assumption.
Qed.

(** The test of [updatePlayer] accepts a position exactly when the collision
    box there meets no wall. *)
Lemma playerBoxClear_iff (scene : Scene) (px py : Q) :
  sceneCanRectangleFitHere scene px py MINIMAP_PLAYER_SIZE MINIMAP_PLAYER_SIZE = true
  <-> playerBoxClear scene (Vector2.new px py).
Proof.
  rewrite sceneCanRectangleFitHere_iff. unfold playerBoxClear, MINIMAP_PLAYER_SIZE.
  cbn [Vector2.x Vector2.y].
  split.
  - intros Hfree i j Hi1 Hi2 Hj1 Hj2. apply Hfree; apply between_floors; split; lra.
  - intros Hfree i j Hi Hj. apply between_floors in Hi, Hj.
    apply Hfree; lra.
Qed.

Section PlayerCollision.
Context `{Host}.

(** C1: if the collision box of the player meets no wall before
    [updatePlayer], it meets none after it, whatever the scene, the time step
    and the four movement flags: a move along an axis is kept only when
    [sceneCanRectangleFitHere] accepts the box at the new place. *)
Theorem updatePlayer_keeps_box_clear (player : Player) (scene : Scene) (deltaTime : Q) :
  playerBoxClear scene (position player) ->
  playerBoxClear scene (position (updatePlayer player scene deltaTime)).
Proof.
  intro Hclear. unfold updatePlayer. cbv zeta. cbn [position].
  match goal with
  | |- context [sceneCanRectangleFitHere scene ?nx (Vector2.y (position player)) _ _] =>
    destruct (sceneCanRectangleFitHere scene nx (Vector2.y (position player))
                MINIMAP_PLAYER_SIZE MINIMAP_PLAYER_SIZE) eqn:Ex
  end.
  - match goal with
    | |- context [if ?c then _ else _] => destruct c eqn:Ey
    end.
    + apply playerBoxClear_iff in Ey. exact Ey.
    + apply playerBoxClear_iff in Ex. exact Ex.
  - match goal with
    | |- context [if ?c then _ else _] => destruct c eqn:Ey
    end.
    + apply playerBoxClear_iff in Ey. exact Ey.
    + exact Hclear.
Qed.

End PlayerCollision.

Lemma updatePlayer_keeps_box_clear_witness :
  playerBoxClear scene_7x7 (position player_north)
  /\ playerBoxClear scene_7x7 (position (updatePlayer player_north scene_7x7 (1 # 10))).
Proof.
  assert (Hclear : playerBoxClear scene_7x7 (position player_north)).
  { apply playerBoxClear_iff. vm_compute. reflexivity. }
  split; [exact Hclear |].
  apply (updatePlayer_keeps_box_clear player_north scene_7x7 (1 # 10)). exact Hclear.
Defined.

(** The step north from y = 1.3 would put the box over the wall row: it is
    dropped, and y stays. *)
Example updatePlayer_blocked :
  Vector2.y (position (updatePlayer player_north scene_7x7 (1 # 10))) == 13 # 10
  /\ Vector2.y (controlVelocity (updatePlayer player_north scene_7x7 (1 # 10))) < - (19 # 10).
Proof. split; vm_compute; reflexivity. Qed.

(** ** The order of the sprites *)

Lemma insertSprite_In (s e : Sprite) (l : list Sprite) :
  In e (insertSprite s l) -> e = s \/ In e l.
Proof.
  induction l as [| u l IH]; simpl.
  - intros [He | []]. left. symmetry. exact He.
  - destruct (Qle_bool (pdist u - pdist s) 0).
    + simpl. intuition.
    + simpl. intros [He | Hin]; [right; left; exact He |].
      destruct (IH Hin); intuition.
Qed.

Lemma insertSprite_sorted (s : Sprite) (l : list Sprite) :
  StronglySorted notNearer l -> StronglySorted notNearer (insertSprite s l).
Proof.
  induction 1 as [| u l Hl IH Hu]; simpl.
  - constructor; [constructor | constructor].
  - destruct (Qle_bool (pdist u - pdist s) 0) eqn:E.
    + apply Qle_bool_iff in E.
      constructor; [constructor; assumption |].
      constructor.
      * unfold notNearer. lra.
      * rewrite Forall_forall in *. intros e He. specialize (Hu e He).
        unfold notNearer in *. lra.
    + apply Qle_bool_false_iff in E.
      constructor; [exact IH |].
      rewrite Forall_forall in *. intros e He.
      apply insertSprite_In in He. destruct He as [-> | He].
      * unfold notNearer. lra.
      * apply Hu, He.
Qed.

Lemma sortSprites_sorted (l : list Sprite) : StronglySorted notNearer (sortSprites l).
Proof.
  induction l as [| s l IH]; simpl.
  - constructor.
  - apply insertSprite_sorted, IH.
Qed.

Lemma StronglySorted_nth (l : list Sprite) :
  StronglySorted notNearer l ->
  forall (i j : nat) (sa sb : Sprite),
    (i < j)%nat -> nth_error l i = Some sa -> nth_error l j = Some sb ->
    notNearer sa sb.
Proof.
  induction 1 as [| u l Hl IH Hu]; intros i j sa sb Hij Ha Hb.
  - destruct i; discriminate.
  - destruct j as [| j]; [lia |]. simpl in Hb.
    destruct i as [| i]; simpl in Ha.
    + injection Ha as <-. rewrite Forall_forall in Hu.
      apply Hu. eapply nth_error_In, Hb.
    + apply (IH i j); [lia | assumption | assumption].
Qed.

Lemma renderSprites_app (display : Display) (l1 l2 : list Sprite) :
  renderSprites display (l1 ++ l2) = renderSprites (renderSprites display l1) l2.
Proof. unfold renderSprites. apply fold_left_app. Qed.

Section SpriteOrder.
Context `{Host}.

(** C6, as the code has it: the list that [cullSprites] leaves is in
    non-increasing order of [pdist], so of two sprites the one that
    [renderSprites] draws first is never the nearer one; sprites of equal
    [pdist] are both kept.  [renderSprites] draws in the order of the list. *)
Theorem cullSprites_back_to_front (player : Player) (spritePool pool' : SpritePool)
    (visible : list Sprite) :
  cullSprites player spritePool = Some (pool', visible) ->
  (forall (i j : nat) (sa sb : Sprite),
      (i < j)%nat -> nth_error visible i = Some sa -> nth_error visible j = Some sb ->
      pdist sb <= pdist sa)
  /\ (forall (display : Display) (before after : list Sprite),
        visible = before ++ after ->
        renderSprites display visible
        = renderSprites (renderSprites display before) after).
Proof.
  unfold cullSprites.
  destruct (fold_left _ _ _) as [[its vis] |]; [| discriminate].
  intro Hc. injection Hc as _ <-. split.
  - apply StronglySorted_nth, sortSprites_sorted.
  - intros display before after ->. apply renderSprites_app.
Qed.

End SpriteOrder.

Lemma cullSprites_tie_runs : isSome (cullSprites player_origin pool_tie) = true.
Proof. vm_compute. reflexivity. Qed.

Lemma cullSprites_back_to_front_witness :
  exists pool' visible,
    cullSprites player_origin pool_tie = Some (pool', visible)
    /\ forall (i j : nat) (sa sb : Sprite),
        (i < j)%nat -> nth_error visible i = Some sa -> nth_error visible j = Some sb ->
        pdist sb <= pdist sa.
Proof.
  destruct (cullSprites player_origin pool_tie) as [[pool' visible] |] eqn:E.
  - exists pool', visible. split; [reflexivity |].
    exact (proj1 (cullSprites_back_to_front player_origin pool_tie pool' visible E)).
  - pose proof cullSprites_tie_runs as Hrun. rewrite E in Hrun. discriminate.
Defined.

(** C6, as it is written, fails: two sprites at the same depth 4 are both
    visible, one is drawn before the other, and its [pdist] is not greater. *)
Lemma cullSprites_tie :
  exists pool' sa sb,
    cullSprites player_origin pool_tie = Some (pool', [sa; sb])
    /\ ~ pdist sb < pdist sa.
Proof.
  do 3 eexists. split.
  - vm_compute. reflexivity.
  - vm_compute. discriminate.
Qed.

(** ** The frame buffer and the depth buffer under the sprite pass *)

Lemma list_set_other {A : Type} (l : list A) (i j : nat) (v : A) :
  i <> j -> nth_error (list_set l i v) j = nth_error l j.
Proof.
  revert i j. induction l as [| u l IH]; intros i j Hij; simpl.
  - reflexivity.
  - destruct i as [| i]; destruct j as [| j]; simpl; try reflexivity.
    + contradiction.
    + apply IH. lia.
Qed.

Lemma image_set_other (img : ImageData) (i j : Z) (v : num) :
  i <> j ->
  data_get (img_data (image_set img i v)) j = data_get (img_data img) j.
Proof.
  intro Hij. unfold image_set, data_set, data_get. simpl.
  destruct (i <? 0)%Z eqn:Ei; [reflexivity |].
  destruct (j <? 0)%Z eqn:Ej; [reflexivity |].
  apply Z.ltb_ge in Ei, Ej. apply list_set_other. lia.
Qed.

(** Two bytes of the frame buffer in different columns are different bytes. *)
Lemma pixel_index_other_column (W x x' y y' k c : Z) :
  (0 <= x < W)%Z -> (0 <= x' < W)%Z -> x' <> x ->
  (0 <= k <= 3)%Z -> (0 <= c <= 3)%Z ->
  ((y' * W + x') * 4 + k <> (y * W + x) * 4 + c)%Z.
Proof.
  intros Hx Hx' Hne Hk Hc Heq.
  assert (Hkc : k = c) by lia. subst k.
  assert (Hrow : ((y' - y) * W = x - x')%Z) by lia.
  assert (Hy : (y' - y = 0)%Z) by nia.
  lia.
Qed.

Lemma fold_left_invariant {A B : Type} (P : A -> Prop) (f : A -> B -> A)
    (l : list B) (u : A) :
  (forall v e, In e l -> P v -> P (f v e)) -> P u -> P (fold_left f l u).
Proof.
  revert u. induction l as [| e l IH]; intros u Hstep Hu; simpl.
  - exact Hu.
  - apply IH.
    + intros v e' He'. apply Hstep. right. exact He'.
    + apply Hstep; [left; reflexivity | exact Hu].
Qed.

(** C5: a column [x] of the frame buffer at which the depth buffer is not
    beyond the sprite ([zBuffer[x] <= pdist], equality included) keeps every
    byte of every pixel when the sprite is drawn: the test of [renderSprites]
    is the strict [pdist < zBuffer[x]].  The columns a sprite covers are
    clipped to 0 .. width-1, so they are among the [x] of the statement. *)
Theorem renderSprite_occluded_column (display : Display) (sprite : Sprite)
    (x : Z) (zx : Q) :
  (0 <= x < img_width (backImageData display))%Z ->
  zBuffer display x = Some zx ->
  zx <= pdist sprite ->
  forall y c : Z, (0 <= c <= 3)%Z ->
    data_get (img_data (backImageData (renderSprite display sprite)))
             ((y * img_width (backImageData display) + x) * 4 + c)
    = data_get (img_data (backImageData display))
               ((y * img_width (backImageData display) + x) * 4 + c).
Proof.
  intros Hx Hz Hocc y c Hc.
  assert (Hback : spriteInFront display sprite x = false).
  { unfold spriteInFront. rewrite Hz. apply Qlt_bool_false_iff. exact Hocc. }
  set (W := img_width (backImageData display)) in *.
  set (j := ((y * W + x) * 4 + c)%Z).
  set (P := fun img : ImageData =>
              data_get (img_data img) j = data_get (img_data (backImageData display)) j).
  unfold renderSprite. cbv zeta. fold W.
  destruct (image sprite) as [im | col]; cbn [backImageData].
  - apply (fold_left_invariant P); [| reflexivity].
    intros v x' Hx' Hv.
    destruct (spriteInFront display sprite x') eqn:Efront; [| exact Hv].
    assert (Hne : x' <> x) by (intro; subst x'; congruence).
    apply Zrange_In in Hx'.
    apply (fold_left_invariant P); [| exact Hv].
    intros v' y' _ Hv'. unfold P in *.
    rewrite !image_set_other; [exact Hv' | | |];
      apply pixel_index_other_column; lia.
  - apply (fold_left_invariant P); [| reflexivity].
    intros v x' Hx' Hv.
    destruct (spriteInFront display sprite x') eqn:Efront; [| exact Hv].
    assert (Hne : x' <> x) by (intro; subst x'; congruence).
    apply Zrange_In in Hx'.
    apply (fold_left_invariant P); [| exact Hv].
    intros v' y' _ Hv'. unfold P in *.
    rewrite !image_set_other; [exact Hv' | | |];
      apply pixel_index_other_column; lia.
Qed.

Lemma renderSprite_zBuffer (display : Display) (sprite : Sprite) :
  zBuffer (renderSprite display sprite) = zBuffer display.
Proof. unfold renderSprite. cbv zeta. destruct (image sprite); reflexivity. Qed.

Lemma renderSprites_zBuffer (display : Display) (sprites : list Sprite) :
  zBuffer (renderSprites display sprites) = zBuffer display.
Proof.
  unfold renderSprites. revert display.
  induction sprites as [| s l IH]; intro display; simpl.
  - reflexivity.
  - rewrite IH. apply renderSprite_zBuffer.
Qed.

Lemma renderSprite_occluded_column_witness :
  data_get (img_data (backImageData (renderSprite display_depth4 sprite_depth4)))
           ((2 * img_width (backImageData display_depth4) + 1) * 4 + 1)
  = data_get (img_data (backImageData display_depth4))
             ((2 * img_width (backImageData display_depth4) + 1) * 4 + 1).
Proof.
  apply (renderSprite_occluded_column display_depth4 sprite_depth4 1 4).
  - vm_compute. split; [discriminate | reflexivity].
  - reflexivity.
  - vm_compute. discriminate.
  - lia.
Defined.

(** With the wall behind the sprite the same pixel is painted: its green
    byte goes from 255 to 0. *)
Example renderSprite_in_front :
  data_get (img_data (backImageData (renderSprite display_depth5 sprite_depth4))) 37
  = Some 0%Z
  /\ data_get (img_data (backImageData display_depth5)) 37 = Some 255%Z.
Proof. split; vm_compute; reflexivity. Qed.

Section SpritePass.
Context `{Host}.

(** C10: the sprite pass leaves the depth buffer as [renderWalls] wrote it.
    [cullSprites] is not given the display; [renderSprites] returns, at every
    column, the depth it was given, whatever the sprites; and in a frame of
    [renderGame] the depth buffer at the end is the one [renderWalls] made. *)
Theorem sprite_pass_keeps_zBuffer :
  (forall (display : Display) (sprites : list Sprite) (x : Z),
      zBuffer (renderSprites display sprites) x = zBuffer display x)
  /\ (forall (fuel : nat) (display : Display) (deltaTime time : Q) (game : Game)
        (hs : HostState) (display' : Display) (game' : Game) (hs' : HostState),
        renderGame fuel display deltaTime time game hs = Some (display', game', hs') ->
        exists display2 : Display,
          renderWalls fuel
            (mkDisplay (renderFloorAndCeiling (backImageData display) (game_player game'))
                       (zBuffer display))
            (game_player game') (game_scene game') = Some display2
          /\ forall x : Z, zBuffer display' x = zBuffer display2 x).
Proof.
  split.
  - intros display sprites x. rewrite renderSprites_zBuffer. reflexivity.
  - intros fuel display deltaTime time game hs display' game' hs'.
    unfold renderGame.
    destruct (updateGame deltaTime time game hs) as [game1 hs1].
    destruct (renderWalls fuel _ (game_player game1) (game_scene game1))
      as [display2 |] eqn:Ewalls; [| discriminate].
    destruct (cullSprites (game_player game1) (game_spritePool game1))
      as [[pool' visible] |]; [| discriminate].
    intro Hr. injection Hr as <- <- <-. cbn [game_player game_scene].
    exists display2. split; [exact Ewalls |].
    intro x. rewrite renderSprites_zBuffer. reflexivity.
Qed.

End SpritePass.

(** In the world of [game_quiet] the bomb is a sprite that [cullSprites]
    keeps: three tenths of a cell deep, nearer than the wall at half a
    cell. *)
Example game_quiet_bomb_visible :
  option_map (fun res : SpritePool * list Sprite => map (fun s => Qred (pdist s)) (snd res))
    (cullSprites (game_player (fst (updateGame 0 0 game_quiet host_start)))
       (game_spritePool (fst (updateGame 0 0 game_quiet host_start))))
  = Some [3 # 10].
Proof. vm_compute. reflexivity. Qed.

Lemma renderGame_quiet_runs :
  isSome (renderGame 10 (createDisplay 2 2) 0 0 game_quiet host_start) = true.
Proof. vm_compute. reflexivity. Qed.

Lemma sprite_pass_keeps_zBuffer_witness :
  exists (display' : Display) (game' : Game) (hs' : HostState),
    renderGame 10 (createDisplay 2 2) 0 0 game_quiet host_start
    = Some (display', game', hs')
    /\ exists display2 : Display,
         renderWalls 10
           (mkDisplay (renderFloorAndCeiling (backImageData (createDisplay 2 2))
                         (game_player game'))
                      (zBuffer (createDisplay 2 2)))
           (game_player game') (game_scene game') = Some display2
         /\ forall x : Z, zBuffer display' x = zBuffer display2 x.
Proof.
  destruct (renderGame 10 (createDisplay 2 2) 0 0 game_quiet host_start)
    as [[[display' game'] hs'] |] eqn:E.
  - exists display', game', hs'. split; [reflexivity |].
    exact (proj2 sprite_pass_keeps_zBuffer 10%nat (createDisplay 2 2) 0 0
             game_quiet host_start display' game' hs' E).
  - pose proof renderGame_quiet_runs as Hrun. rewrite E in Hrun. discriminate.
Defined.

(** ** The shading of the wall strips *)

(** The textured strip is shaded with min(2/z, 1), which is at most 1. *)
Lemma shadowTextured_clamped (zx : Q) :
  shadowTextured zx == Qmin (2 / zx) 1 /\ shadowTextured zx <= 1.
Proof.
  unfold shadowTextured, Math_min.
  assert (He : 1 / zx * 2 == 2 / zx) by (unfold Qdiv; ring).
  destruct (Qle_bool (1 / zx * 2) 1) eqn:E.
  - apply Qle_bool_iff in E. split; [| exact E].
    rewrite Q.min_l; [exact He | rewrite <- He; exact E].
  - apply Qle_bool_false_iff in E. split; [| lra].
    rewrite Q.min_r; [reflexivity | rewrite <- He; lra].
Qed.

(** The solid strip is shaded with 2/z as it is. *)
Lemma shadowSolid_unclamped (zx : Q) :
  shadowSolid zx == 2 / zx /\ (0 < zx -> zx < 2 -> 1 < shadowSolid zx).
Proof.
  unfold shadowSolid.
  assert (He : 1 / zx * 2 == 2 / zx) by (unfold Qdiv; ring).
  split; [exact He |]. intros Hpos Hlt. rewrite He.
  apply Qlt_shift_div_l; lra.
Qed.

(** C2 at a solid-colour wall half a cell in front of the player: the depth
    of column 0 is 1/2, the strip is shaded with the factor 4, and the pixel
    at the top of the column gets the bytes 102 and 204 from the colour
    (0.1, 0.2, 0.3), where the factor min(2/z, 1) = 1 gives 26 and 51. *)
Theorem renderWalls_solid_shadow_exceeds_1 :
  exists display' : Display,
    renderWalls 10 (createDisplay 2 2) player_room scene_room = Some display'
    /\ variant (sceneGetTile scene_room (Vector2.new 2 1)) = SolidColor
    /\ (exists zx : Q, zBuffer display' 0%Z = Some zx /\ zx == 1 # 2)
    /\ shadowSolid (1 # 2) == 4
    /\ data_get (img_data (backImageData display')) 0 = Some 102%Z
    /\ data_get (img_data (backImageData display')) 1 = Some 204%Z
    /\ toUint8Clamp (Some ((1 # 10) * Qmin (2 / (1 # 2)) 1 * 255)) = 26%Z
    /\ toUint8Clamp (Some ((2 # 10) * Qmin (2 / (1 # 2)) 1 * 255)) = 51%Z.
Proof.
  eexists. split; [vm_compute; reflexivity |].
  split; [reflexivity |].
  split; [eexists; split; [vm_compute; reflexivity | reflexivity] |].
  repeat split; vm_compute; reflexivity.
Qed.

(** ** Frames of no duration *)













Section ZeroDelta.
Context `{Host}.



End ZeroDelta.

Section ZeroDeltaBodies.
Context `{Host}.







End ZeroDeltaBodies.

Section ZeroDeltaFrames.
Context `{Host}.



End ZeroDeltaFrames.





(** The other two conditions are needed as well: at [deltaTime] 0 a bomb in
    flight below its scale has its velocity turned and damped. *)
Example zero_delta_bomb_on_floor :
  let thrown := mkBomb (Vector3.new (3 # 2) (3 # 2) 0) (Vector3.new 5 0 (5 # 2)) 2 in
  Vector3.z (velocity (snd (updateBomb (mkUpdateState createSpritePool [] host_start)
                              player_room scene_room 0 assets_white thrown)))
  == - 2.
Proof. vm_compute. reflexivity. Qed.

(** ** The ray caster *)

(** In the room the ray east from the middle stops at the wall face x = 2
    on its second turn; one turn of fuel is not enough. *)
Example castRay_runs :
  option_map Vector2.x
    (castRay 2 scene_room (Vector2.new (3 # 2) (3 # 2)) (Vector2.new (16 # 10) (3 # 2)))
  = Some 2
  /\ castRay 1 scene_room (Vector2.new (3 # 2) (3 # 2)) (Vector2.new (16 # 10) (3 # 2))
     = None.
Proof. split; vm_compute; reflexivity. Qed.

(** At 2^34 the rounded [snap] returns the gridline it is given, where the
    exact one goes on to the next; at 2^33 the rounded one still goes on. *)
Example binary64_snap_absorbed :
  Binary64.snap (inject_Z (2 ^ 34)) 1 == inject_Z (2 ^ 34)
  /\ snap (inject_Z (2 ^ 34)) 1 == inject_Z (2 ^ 34 + 1)
  /\ Binary64.snap (inject_Z (2 ^ 33)) 1 == inject_Z (2 ^ 33 + 1).
Proof. split; [| split]; vm_compute; reflexivity. Qed.

Lemma far_step : Binary64.rayStep far_p1 far_p2 = far_p2.
Proof. vm_compute. reflexivity. Qed.

Lemma far_stay : Binary64.rayStep far_p2 far_p2 = far_p2.
Proof. vm_compute. reflexivity. Qed.

Lemma far_first_turn :
  Qlt_bool (Binary64.sqrDistanceTo far_p1 far_p1)
           (Binary64.mul FAR_CLIPPING_PLANE FAR_CLIPPING_PLANE)
  && negb (sceneIsWall scene_7x7 (Binary64.hittingCell far_p1 far_p2)) = true.
Proof. vm_compute. reflexivity. Qed.

Lemma far_next_turns :
  Qlt_bool (Binary64.sqrDistanceTo far_p1 far_p2)
           (Binary64.mul FAR_CLIPPING_PLANE FAR_CLIPPING_PLANE)
  && negb (sceneIsWall scene_7x7 (Binary64.hittingCell far_p2 far_p2)) = true.
Proof. vm_compute. reflexivity. Qed.

Lemma castRay_loop_if (fuel : nat) (scene : Scene) (start p1 p2 : Vector2.t) :
  Binary64.castRay_loop (S fuel) scene start p1 p2
  = if Qlt_bool (Binary64.sqrDistanceTo start p1)
                (Binary64.mul FAR_CLIPPING_PLANE FAR_CLIPPING_PLANE)
       && negb (sceneIsWall scene (Binary64.hittingCell p1 p2))
    then Binary64.castRay_loop fuel scene start p2 (Binary64.rayStep p1 p2)
    else Some p2.
Proof.
  cbn [Binary64.castRay_loop].
  destruct (Qlt_bool _ _); [| reflexivity].
  destruct (sceneIsWall scene (Binary64.hittingCell p1 p2)); reflexivity.
Qed.

Lemma far_loop_spins (fuel : nat) :
  Binary64.castRay_loop fuel scene_7x7 far_p1 far_p2 far_p2 = None.
Proof.
  induction fuel as [| fuel IH]; [reflexivity |].
  rewrite castRay_loop_if, far_next_turns, far_stay. exact IH.
Qed.

(** C7 fails on doubles.  From x = 2^34 on, the step between doubles is
    more than twice [EPS], so [x + EPS] rounds back to [x] and [snap] does not
    leave a gridline it is on.  For the ray from (2^34 - 1, 0.5) through
    (2^34, 0.5), two distinct points, [rayStep] returns its second point;
    from then on both points of the loop are that one, the distance from the
    start stays 1, the cell is no wall, and the loop of [castRay] goes
    round without end: whatever fuel it is given, it has not returned. *)
Theorem castRay_never_returns (fuel : nat) :
  ~ Vector2.eq far_p1 far_p2
  /\ Binary64.castRay fuel scene_7x7 far_p1 far_p2 = None.
Proof.
  split.
  - intros [Hx _]. revert Hx. vm_compute. discriminate.
  - unfold Binary64.castRay. destruct fuel as [| fuel]; [reflexivity |].
    rewrite castRay_loop_if, far_first_turn, far_step. apply far_loop_spins.
Qed.

(* ================================================================== *)
(** * Further properties *)

(** ** The grid that [createScene] builds *)

Lemma fold_max_ge (l : list nat) (n0 : nat) :
  (n0 <= fold_left Nat.max l n0)%nat
  /\ forall n, In n l -> (n <= fold_left Nat.max l n0)%nat.
Proof.
  revert n0. induction l as [| m l IH]; intro n0; simpl.
  - split; [lia | intros n []].
  - destruct (IH (Nat.max n0 m)) as [H0 Hin]. split; [lia |].
    intros n [<- | Hn]; [lia | apply Hin, Hn].
Qed.

Lemma inject_nat_le (m n : nat) :
  (m <= n)%nat <-> inject_Z (Z.of_nat m) <= inject_Z (Z.of_nat n).
Proof. rewrite <- Zle_Qle. lia. Qed.

(** The width of the scene: the longest row, or [Number.MIN_VALUE] when
    every row is empty. *)
Lemma createScene_width_fold (rows : list (list Tile)) (w0 : Q) (n0 : nat) :
  w0 == inject_Z (Z.of_nat n0) \/ (n0 = 0%nat /\ 0 < w0 /\ w0 < 1) ->
  let w := fold_left (fun w row => Math_max w (inject_Z (Z.of_nat (List.length row))))
                     rows w0 in
  let n := fold_left Nat.max (map (@List.length Tile) rows) n0 in
  w == inject_Z (Z.of_nat n) \/ (n = 0%nat /\ 0 < w /\ w < 1).
Proof.
  revert w0 n0. induction rows as [| row rows IH]; intros w0 n0 H0; simpl.
  - exact H0.
  - apply IH. unfold Math_max.
    destruct (Qle_bool w0 (inject_Z (Z.of_nat (List.length row)))) eqn:E.
    + apply Qle_bool_iff in E. left.
      destruct H0 as [H0 | [-> _]].
      * rewrite H0 in E. apply inject_nat_le in E.
        rewrite Nat.max_r by exact E. reflexivity.
      * reflexivity.
    + apply Qle_bool_false_iff in E.
      destruct H0 as [H0 | [-> [Hpos Hlt]]].
      * left. rewrite H0 in E |- *.
        assert (Hlt : (List.length row < n0)%nat).
        { apply Nat.nle_gt. intro Hle. apply inject_nat_le in Hle. lra. }
        rewrite Nat.max_l by lia. reflexivity.
      * right.
        assert (Hz : List.length row = 0%nat).
        { destruct (List.length row) as [| k] eqn:El; [reflexivity |]. exfalso.
          assert (1 <= inject_Z (Z.of_nat (S k))).
          { change 1 with (inject_Z 1). rewrite <- Zle_Qle. lia. }
          lra. }
        rewrite Hz. simpl. repeat split; assumption.
Qed.

Lemma createScene_width (rows : list (list Tile)) :
  (0 < maxRowLength rows)%nat ->
  width (createScene rows) == inject_Z (Z.of_nat (maxRowLength rows)).
Proof.
  intro Hpos. unfold createScene. cbn [width].
  destruct (createScene_width_fold rows Number_MIN_VALUE 0) as [Hw | [Hz _]].
  - right. split; [reflexivity |]. split; reflexivity.
  - exact Hw.
  - unfold maxRowLength in Hpos. lia.
Qed.

Lemma fold_left_app_map {A B : Type} (f : A -> list B) (l : list A) (acc : list B) :
  fold_left (fun acc u => acc ++ f u) l acc = acc ++ concat (map f l).
Proof.
  revert acc. induction l as [| u l IH]; intro acc; simpl.
  - rewrite app_nil_r. reflexivity.
  - rewrite IH, app_assoc. reflexivity.
Qed.

Lemma createScene_walls (rows : list (list Tile)) :
  (0 < maxRowLength rows)%nat ->
  walls (createScene rows) = concat (map (paddedRow (maxRowLength rows)) rows).
Proof.
  intro Hpos. pose proof (createScene_width rows Hpos) as Hw.
  unfold createScene in *. cbn [walls width] in *.
  rewrite (fold_left_app_map
             (fun row => row ++ repeat TNull (Z.to_nat (Qceiling (_ - inject_Z (Z.of_nat (List.length row))))))).
  cbn [app]. f_equal. apply map_ext_in. intros row Hin. unfold paddedRow. do 2 f_equal.
  assert (Hle : (List.length row <= maxRowLength rows)%nat).
  { apply fold_max_ge. apply in_map. exact Hin. }
  assert (He : fold_left (fun w row0 => Math_max w (inject_Z (Z.of_nat (List.length row0))))
                 rows Number_MIN_VALUE - inject_Z (Z.of_nat (List.length row))
               == inject_Z (Z.of_nat (maxRowLength rows - List.length row))).
  { rewrite Hw, Nat2Z.inj_sub by exact Hle. unfold Zminus.
    rewrite inject_Z_plus, inject_Z_opp. reflexivity. }
  rewrite (Qceiling_comp _ _ He), Qceiling_Z. apply Nat2Z.id.
Qed.

Lemma nth_error_concat_blocks {A : Type} (blocks : list (list A)) (M : nat) :
  (forall blk, In blk blocks -> List.length blk = M) ->
  forall row col : nat, (col < M)%nat ->
    nth_error (concat blocks) (row * M + col)
    = match nth_error blocks row with
      | Some blk => nth_error blk col
      | None => None
      end.
Proof.
  induction blocks as [| blk blocks IH]; intros Hlen row col Hcol.
  - simpl concat. destruct (row * M + col)%nat; destruct row; reflexivity.
  - assert (Hb : List.length blk = M) by (apply Hlen; left; reflexivity).
    destruct row as [| row]; simpl concat.
    + simpl. apply nth_error_app1. lia.
    + rewrite nth_error_app2 by (simpl; lia).
      replace (S row * M + col - List.length blk)%nat with (row * M + col)%nat
        by (simpl; lia).
      simpl nth_error. apply IH; [| exact Hcol].
      intros b Hin. apply Hlen. right. exact Hin.
Qed.

Lemma concat_length_blocks {A : Type} (blocks : list (list A)) (M : nat) :
  (forall blk, In blk blocks -> List.length blk = M) ->
  List.length (concat blocks) = (List.length blocks * M)%nat.
Proof.
  induction blocks as [| blk blocks IH]; intro Hlen; simpl.
  - reflexivity.
  - rewrite length_app, IH by (intros b Hb; apply Hlen; right; exact Hb).
    rewrite (Hlen blk) by (left; reflexivity). reflexivity.
Qed.

Lemma paddedRow_length (M : nat) (row : list Tile) :
  (List.length row <= M)%nat -> List.length (paddedRow M row) = M.
Proof.
  intro Hle. unfold paddedRow. rewrite length_app, repeat_length. lia.
Qed.

Lemma paddedRow_nth (M : nat) (row : list Tile) (col : nat) :
  (col < M)%nat -> (List.length row <= M)%nat ->
  nth_error (paddedRow M row) col = Some (nth col row TNull).
Proof.
  intros Hcol Hle. unfold paddedRow.
  destruct (Nat.lt_ge_cases col (List.length row)) as [Hin | Hout].
  - rewrite nth_error_app1 by exact Hin. apply nth_error_nth'. exact Hin.
  - rewrite nth_error_app2 by exact Hout.
    rewrite (nth_overflow row TNull) by exact Hout.
    rewrite nth_error_repeat by lia. reflexivity.
Qed.

Lemma floor_in_range (v : Q) (n : nat) :
  0 <= v -> v < inject_Z (Z.of_nat n) ->
  (0 <= Qfloor v)%Z /\ (Z.to_nat (Qfloor v) < n)%nat.
Proof.
  intros H0 Hn.
  assert (Hlo : (0 <= Qfloor v)%Z).
  { rewrite <- (Qfloor_Z 0). apply Qfloor_resp_le. exact H0. }
  split; [exact Hlo |].
  assert (Hhi : (Qfloor v < Z.of_nat n)%Z).
  { rewrite Zlt_Qlt. pose proof (Qfloor_le v). lra. }
  lia.
Qed.

(** X1: when some row is not empty, [createScene] builds a full grid: the
    width is the length of the longest row, the height the number of rows,
    [walls] has width times height cells, and the tile read back at a point
    inside the grid is the tile of that row and column of the input, or
    [null] where the row was shorter. *)
Theorem createScene_getTile (rows : list (list Tile)) :
  (0 < maxRowLength rows)%nat ->
  width (createScene rows) == inject_Z (Z.of_nat (maxRowLength rows))
  /\ height (createScene rows) = inject_Z (Z.of_nat (List.length rows))
  /\ List.length (walls (createScene rows))
     = (List.length rows * maxRowLength rows)%nat
  /\ forall p : Vector2.t,
       0 <= Vector2.x p -> Vector2.x p < inject_Z (Z.of_nat (maxRowLength rows)) ->
       0 <= Vector2.y p -> Vector2.y p < inject_Z (Z.of_nat (List.length rows)) ->
       sceneGetTile (createScene rows) p
       = Some (nth (Z.to_nat (Qfloor (Vector2.x p)))
                 (nth (Z.to_nat (Qfloor (Vector2.y p))) rows []) TNull).
Proof.
  intro Hpos.
  pose proof (createScene_width rows Hpos) as Hw.
  pose proof (createScene_walls rows Hpos) as Hwalls.
  set (M := maxRowLength rows) in *.
  assert (Hblocks : forall blk, In blk (map (paddedRow M) rows) -> List.length blk = M).
  { intros blk Hin. apply in_map_iff in Hin. destruct Hin as [row [<- Hrow]].
    apply paddedRow_length. apply fold_max_ge. apply in_map. exact Hrow. }
  split; [exact Hw |]. split; [reflexivity |]. split.
  - rewrite Hwalls, (concat_length_blocks _ M Hblocks), length_map. reflexivity.
  - intros p Hx0 Hx1 Hy0 Hy1.
    destruct (floor_in_range _ _ Hx0 Hx1) as [Hfx0 Hfx1].
    destruct (floor_in_range _ _ Hy0 Hy1) as [Hfy0 Hfy1].
    unfold sceneGetTile.
    assert (Hc : sceneContains (createScene rows) p = true).
    { unfold sceneContains.
      assert (E1 : Qle_bool 0 (Vector2.x p) = true) by (apply Qle_bool_iff; exact Hx0).
      assert (E2 : Qlt_bool (Vector2.x p) (width (createScene rows)) = true)
        by (apply Qlt_bool_iff; rewrite Hw; exact Hx1).
      assert (E3 : Qle_bool 0 (Vector2.y p) = true) by (apply Qle_bool_iff; exact Hy0).
      assert (E4 : Qlt_bool (Vector2.y p) (height (createScene rows)) = true)
        by (apply Qlt_bool_iff; exact Hy1).
      rewrite E1, E2, E3, E4. reflexivity. }
    rewrite Hc. cbn [negb]. unfold array_get, Math_floor.
    set (fx := Qfloor (Vector2.x p)) in *. set (fy := Qfloor (Vector2.y p)) in *.
    assert (Hi : inject_Z fy * width (createScene rows) + inject_Z fx
                 == inject_Z (fy * Z.of_nat M + fx)).
    { rewrite Hw, inject_Z_plus, inject_Z_mult. reflexivity. }
    rewrite (Qfloor_comp _ _ Hi), Qfloor_Z.
    assert (Hq : Qeq_bool (inject_Z (fy * Z.of_nat M + fx))
                   (inject_Z fy * width (createScene rows) + inject_Z fx) = true).
    { apply Qeq_bool_iff. symmetry. exact Hi. }
    assert (Hn : (0 <=? fy * Z.of_nat M + fx)%Z = true) by (apply Z.leb_le; nia).
    rewrite Hq, Hn. cbn [andb].
    replace (Z.to_nat (fy * Z.of_nat M + fx))
      with (Z.to_nat fy * M + Z.to_nat fx)%nat by nia.
    rewrite Hwalls, (nth_error_concat_blocks _ M Hblocks) by exact Hfx1.
    rewrite nth_error_map.
    rewrite (nth_error_nth' rows []) by exact Hfy1. cbn [option_map].
    apply paddedRow_nth; [exact Hfx1 |].
    apply fold_max_ge. apply in_map. apply nth_In. exact Hfy1.
Qed.

(** ** Cells *)

Lemma floor_nonneg_iff (v : Q) : 0 <= v <-> 0 <= inject_Z (Qfloor v).
Proof.
  split; intro Hv.
  - change 0 with (inject_Z 0). rewrite <- Zle_Qle.
    rewrite <- (Qfloor_Z 0). apply Qfloor_resp_le. exact Hv.
  - pose proof (Qfloor_le v). lra.
Qed.

Lemma floor_lt_int_iff (v : Q) (n : Z) :
  v < inject_Z n <-> inject_Z (Qfloor v) < inject_Z n.
Proof.
  split; intro Hv.
  - pose proof (Qfloor_le v). lra.
  - rewrite <- Zlt_Qlt in Hv. pose proof (Qlt_floor v) as Hlt.
    assert (Hle : inject_Z (Qfloor v + 1) <= inject_Z n) by (rewrite <- Zle_Qle; lia).
    lra.
Qed.

Lemma bool_eq_iff (u v : bool) : (u = true <-> v = true) -> u = v.
Proof. destruct u, v; intuition congruence. Qed.

Lemma sceneLookup_cell (scene : Scene) (w h : Z) (p : Vector2.t) :
  width scene == inject_Z w ->
  height scene == inject_Z h ->
  sceneGetTile scene p
  = sceneGetTile scene (Vector2.new (Math_floor (Vector2.x p)) (Math_floor (Vector2.y p)))
  /\ sceneIsWall scene p
     = sceneIsWall scene (Vector2.new (Math_floor (Vector2.x p)) (Math_floor (Vector2.y p))).
Proof.
  intros Hw Hh.
  assert (Ht : sceneGetTile scene p
               = sceneGetTile scene
                   (Vector2.new (Math_floor (Vector2.x p)) (Math_floor (Vector2.y p)))).
  { unfold sceneGetTile, sceneContains, Math_floor. cbn [Vector2.x Vector2.y].
    rewrite !Qfloor_Z.
    replace (Qle_bool 0 (inject_Z (Qfloor (Vector2.x p)))) with (Qle_bool 0 (Vector2.x p))
      by (apply bool_eq_iff; rewrite !Qle_bool_iff; apply floor_nonneg_iff).
    replace (Qle_bool 0 (inject_Z (Qfloor (Vector2.y p)))) with (Qle_bool 0 (Vector2.y p))
      by (apply bool_eq_iff; rewrite !Qle_bool_iff; apply floor_nonneg_iff).
    replace (Qlt_bool (inject_Z (Qfloor (Vector2.x p))) (width scene))
      with (Qlt_bool (Vector2.x p) (width scene))
      by (apply bool_eq_iff; rewrite !Qlt_bool_iff, Hw; apply floor_lt_int_iff).
    replace (Qlt_bool (inject_Z (Qfloor (Vector2.y p))) (height scene))
      with (Qlt_bool (Vector2.y p) (height scene))
      by (apply bool_eq_iff; rewrite !Qlt_bool_iff, Hh; apply floor_lt_int_iff).
    reflexivity. }
  split; [exact Ht |]. unfold sceneIsWall. rewrite Ht. reflexivity.
Qed.

(** X2: in a scene whose width and height are whole numbers, as those of
    [createScene] are, the tile and the wall flag of a point are those of
    the corner of its cell: a lookup depends on the cell only. *)
Theorem sceneGetTile_cell (scene : Scene) (w h : Z) (p : Vector2.t) :
  width scene == inject_Z w ->
  height scene == inject_Z h ->
  sceneGetTile scene p
  = sceneGetTile scene (Vector2.new (Math_floor (Vector2.x p)) (Math_floor (Vector2.y p)))
  /\ sceneIsWall scene p
     = sceneIsWall scene (Vector2.new (Math_floor (Vector2.x p)) (Math_floor (Vector2.y p))).
Proof. apply sceneLookup_cell. Qed.

(** X4: a rectangle that fits leaves room for every smaller rectangle with
    the same centre. *)
Theorem sceneCanRectangleFitHere_smaller (scene : Scene) (px py sx sy sx' sy' : Q) :
  sx' <= sx -> sy' <= sy ->
  sceneCanRectangleFitHere scene px py sx sy = true ->
  sceneCanRectangleFitHere scene px py sx' sy' = true.
Proof.
  intros Hsx Hsy Hfit.
  apply sceneCanRectangleFitHere_iff. intros i j Hi Hj.
  apply between_floors in Hi, Hj.
  apply (proj1 (sceneCanRectangleFitHere_iff scene px py sx sy) Hfit);
    apply between_floors; split; lra.
Qed.

(** ** Gridlines *)

Lemma snap_whole (v dx : Q) : ~ dx == 0 -> exists n : Z, snap v dx = inject_Z n.
Proof.
  intro Hdx. unfold snap.
  destruct (Qlt_bool 0 dx) eqn:E1; [eexists; reflexivity |].
  destruct (Qlt_bool dx 0) eqn:E2; [eexists; reflexivity |].
  apply Qlt_bool_false_iff in E1, E2. exfalso. apply Hdx. lra.
Qed.

(** X6: for two points that differ, [rayStep] returns a point on a
    gridline: its x or its y is a whole number. *)
Theorem rayStep_on_gridline (p1 p2 : Vector2.t) :
  ~ Vector2.eq p1 p2 ->
  (exists n : Z, Vector2.x (rayStep p1 p2) = inject_Z n)
  \/ (exists n : Z, Vector2.y (rayStep p1 p2) = inject_Z n).
Proof.
  intro Hne. unfold rayStep. cbv zeta.
  destruct (Qeq_bool (Vector2.x p2 - Vector2.x p1) 0) eqn:Edx; cbn [negb].
  - apply Qeq_bool_iff in Edx. right. cbn [Vector2.y].
    apply snap_whole. intro Hdy. apply Hne. split; lra.
  - apply Qeq_bool_neq in Edx.
    destruct (negb (Qeq_bool _ 0)) eqn:Ek.
    + destruct (Qlt_bool _ _); cbn [Vector2.x Vector2.y].
      * right. apply snap_whole. intro Hdy.
        apply negb_true_iff in Ek. apply Qeq_bool_neq in Ek. apply Ek.
        rewrite Hdy. unfold Qdiv. ring.
      * left. apply snap_whole. exact Edx.
    + left. cbn [Vector2.x]. apply snap_whole. exact Edx.
Qed.

(** ** The sprite pool and the sprites that are drawn *)

Lemma list_set_length {A : Type} (l : list A) (i : nat) (v : A) :
  List.length (list_set l i v) = List.length l.
Proof.
  revert i. induction l as [| u l IH]; intro i; simpl.
  - reflexivity.
  - destruct i; simpl; [reflexivity | rewrite IH; reflexivity].
Qed.

Lemma list_set_same {A : Type} (l : list A) (i : nat) (v : A) :
  (i < List.length l)%nat -> nth_error (list_set l i v) i = Some v.
Proof.
  revert i. induction l as [| u l IH]; intros i Hi; simpl in *.
  - lia.
  - destruct i; simpl; [reflexivity | apply IH; lia].
Qed.

Lemma pushSprite_facts (spritePool : SpritePool) (image : SpriteImage)
    (position : Vector2.t) (z scale : Q) :
  poolOk spritePool ->
  let pool' := pushSprite spritePool image position z scale in
  poolOk pool'
  /\ length pool' = S (length spritePool)
  /\ (List.length (items spritePool) <= List.length (items pool'))%nat
  /\ nth_error (items pool') (length spritePool)
     = Some (mkSprite image position z scale 0 0 0)
  /\ forall i : nat, (i < length spritePool)%nat ->
       nth_error (items pool') i = nth_error (items spritePool) i.
Proof.
  unfold poolOk. intro Hok. unfold pushSprite. cbv zeta.
  destruct (List.length (items spritePool) <=? length spritePool)%nat eqn:E;
    cbn [items length].
  - apply Nat.leb_le in E.
    assert (Heq : length spritePool = List.length (items spritePool)) by lia.
    rewrite length_app. cbn [List.length]. repeat split; try lia.
    + rewrite Heq, nth_error_app2 by lia. rewrite Nat.sub_diag. reflexivity.
    + intros i Hi. apply nth_error_app1. lia.
  - apply Nat.leb_gt in E. rewrite list_set_length. repeat split; try lia.
    + apply list_set_same. exact E.
    + intros i Hi. apply list_set_other. lia.
Qed.

(** X8: [pushSprite] on a pool whose cursor is within its slots moves the
    cursor by one, writes the new sprite (with [dist], [pdist] and [t] at 0)
    at the old cursor, leaves the slots below it as they were, and never
    makes the array of slots shorter. *)
Theorem pushSprite_slot (spritePool : SpritePool) (image : SpriteImage)
    (position : Vector2.t) (z scale : Q) :
  poolOk spritePool ->
  let pool' := pushSprite spritePool image position z scale in
  poolOk pool'
  /\ length pool' = S (length spritePool)
  /\ (List.length (items spritePool) <= List.length (items pool'))%nat
  /\ nth_error (items pool') (length spritePool)
     = Some (mkSprite image position z scale 0 0 0)
  /\ forall i : nat, (i < length spritePool)%nat ->
       nth_error (items pool') i = nth_error (items spritePool) i.
Proof. apply pushSprite_facts. Qed.

Lemma insertSprite_perm (s : Sprite) (l : list Sprite) :
  Permutation (s :: l) (insertSprite s l).
Proof.
  induction l as [| e l IH]; simpl.
  - apply Permutation_refl.
  - destruct (Qle_bool (pdist e - pdist s) 0).
    + apply Permutation_refl.
    + eapply Permutation_trans; [apply perm_swap |]. apply perm_skip. exact IH.
Qed.

(** X9: the sort that ends [cullSprites] loses no sprite and repeats none: its
    result is a rearrangement of the list it is given. *)
Theorem sortSprites_rearranges (l : list Sprite) : Permutation l (sortSprites l).
Proof.
  induction l as [| s l IH]; simpl.
  - apply perm_nil.
  - eapply Permutation_trans; [apply perm_skip; exact IH |]. apply insertSprite_perm.
Qed.

Lemma sortSprites_perm (l : list Sprite) : Permutation l (sortSprites l).
Proof.
  induction l as [| s l IH]; simpl.
  - apply perm_nil.
  - eapply Permutation_trans; [apply perm_skip; exact IH |]. apply insertSprite_perm.
Qed.

Section CullSprites.
Context `{Host}.

Lemma cullSprite_kept (player : Player) (sprite : Sprite) :
  snd (cullSprite player sprite) = true ->
  NEAR_CLIPPING_PLANE <= pdist (fst (cullSprite player sprite))
  /\ pdist (fst (cullSprite player sprite)) < FAR_CLIPPING_PLANE.
Proof.
  unfold cullSprite. cbv zeta.
  destruct (Qle_bool _ NEAR_CLIPPING_PLANE); [discriminate |].
  destruct (Qle_bool FAR_CLIPPING_PLANE _); [discriminate |].
  destruct (negb _); [discriminate |].
  destruct (Qlt_bool _ NEAR_CLIPPING_PLANE) eqn:E1; [discriminate |].
  destruct (Qle_bool FAR_CLIPPING_PLANE _) eqn:E2; [discriminate |].
  intros _. cbn [fst pdist].
  apply Qlt_bool_false_iff in E1. apply Qle_bool_false_iff in E2. split; assumption.
Qed.

Lemma cullSprite_same_sprite (player : Player) (sprite : Sprite) :
  image (fst (cullSprite player sprite)) = image sprite
  /\ sprite_position (fst (cullSprite player sprite)) = sprite_position sprite
  /\ sprite_z (fst (cullSprite player sprite)) = sprite_z sprite
  /\ scale (fst (cullSprite player sprite)) = scale sprite.
Proof.
  unfold cullSprite. cbv zeta.
  repeat match goal with
         | |- context [if ?c then _ else _] => destruct c
         end; repeat split.
Qed.

(** The loop of [cullSprites] over the first [n] slots. *)
Lemma cullSprites_loop (player : Player) (its0 : list Sprite) (n : nat) :
  (n <= List.length its0)%nat ->
  exists its vis,
    fold_left (fun acc i =>
        match acc with
        | None => None
        | Some (its, vis) =>
          match nth_error its i with
          | None => None
          | Some sprite =>
            let (sprite', keep) := cullSprite player sprite in
            Some (list_set its i sprite', if keep then vis ++ [sprite'] else vis)
          end
        end)
      (seq 0 n) (Some (its0, []))
    = Some (its, vis)
    /\ List.length its = List.length its0
    /\ (forall j, (n <= j)%nat -> nth_error its j = nth_error its0 j)
    /\ (List.length vis <= n)%nat
    /\ Forall (fun v =>
          NEAR_CLIPPING_PLANE <= pdist v /\ pdist v < FAR_CLIPPING_PLANE
          /\ exists (i : nat) (s : Sprite),
               (i < n)%nat /\ nth_error its0 i = Some s
               /\ v = fst (cullSprite player s)) vis.
Proof.
  induction n as [| n IH]; intro Hn.
  - exists its0, []. cbn [seq fold_left].
    split; [reflexivity |]. split; [reflexivity |]. split; [reflexivity |].
    split; [apply Nat.le_refl | constructor].
  - destruct IH as [its [vis [Hrun [Hlen [Hrest [Hcount Hvis]]]]]]; [lia |].
    rewrite seq_S, fold_left_app, Hrun. cbn [fold_left Nat.add].
    destruct (nth_error its n) as [sprite |] eqn:En.
    2:{ apply nth_error_None in En. lia. }
    assert (Horig : nth_error its0 n = Some sprite) by (rewrite <- Hrest by lia; exact En).
    destruct (cullSprite player sprite) as [sprite' keep] eqn:Ec.
    eexists. eexists. split; [reflexivity |].
    split; [rewrite list_set_length; exact Hlen |].
    split; [intros j Hj; rewrite list_set_other by lia; apply Hrest; lia |].
    assert (Hold : Forall (fun v =>
          NEAR_CLIPPING_PLANE <= pdist v /\ pdist v < FAR_CLIPPING_PLANE
          /\ exists (i : nat) (s : Sprite),
               (i < S n)%nat /\ nth_error its0 i = Some s
               /\ v = fst (cullSprite player s)) vis).
    { eapply Forall_impl; [| exact Hvis].
      intros v [H1 [H2 [i [s [Hi [Hs Hv]]]]]]. repeat split; try assumption.
      exists i, s. repeat split; try assumption. lia. }
    destruct keep.
    + split; [rewrite length_app; cbn [List.length]; lia |].
      apply Forall_app. split; [exact Hold |]. constructor; [| constructor].
      pose proof (cullSprite_kept player sprite) as Hk. rewrite Ec in Hk.
      cbn [fst snd] in Hk. destruct (Hk eq_refl) as [Hk1 Hk2].
      repeat split; try assumption.
      exists n, sprite. repeat split; try assumption; [lia |]. rewrite Ec. reflexivity.
    + split; [lia | exact Hold].
Qed.

(** X10: on a pool whose cursor is within its slots [cullSprites] does not
    throw; it keeps the cursor and the number of slots; and every sprite it
    leaves to be drawn is one of the first [length] sprites of the pool, as
    [cullSprite] has projected it, with its [pdist] at least
    [NEAR_CLIPPING_PLANE] and less than [FAR_CLIPPING_PLANE] (so the
    divisions by [pdist] in [renderSprites] are by a positive number). *)
Theorem cullSprites_visible (player : Player) (spritePool : SpritePool) :
  poolOk spritePool ->
  exists pool' visible,
    cullSprites player spritePool = Some (pool', visible)
    /\ length pool' = length spritePool
    /\ List.length (items pool') = List.length (items spritePool)
    /\ (List.length visible <= length spritePool)%nat
    /\ Forall (fun v =>
          NEAR_CLIPPING_PLANE <= pdist v /\ pdist v < FAR_CLIPPING_PLANE
          /\ exists (i : nat) (s : Sprite),
               (i < length spritePool)%nat /\ nth_error (items spritePool) i = Some s
               /\ v = fst (cullSprite player s)) visible.
Proof.
  intro Hok.
  destruct (cullSprites_loop player (items spritePool) (length spritePool) Hok)
    as [its [vis [Hrun [Hlen [_ [Hcount Hvis]]]]]].
  unfold cullSprites. rewrite Hrun.
  exists (mkSpritePool its (length spritePool)), (sortSprites vis).
  split; [reflexivity |]. cbn [length items].
  split; [reflexivity |]. split; [exact Hlen |].
  pose proof (sortSprites_perm vis) as Hperm.
  split.
  - rewrite <- (Permutation_length Hperm). exact Hcount.
  - eapply Permutation_Forall; eassumption.
Qed.

End CullSprites.

Lemma fold_left_fixed {A B : Type} (f : A -> B -> A) (l : list B) (u : A) :
  (forall v e, In e l -> f v e = v) -> fold_left f l u = u.
Proof.
  revert u. induction l as [| e l IH]; intros u Hf; simpl.
  - reflexivity.
  - rewrite Hf by (left; reflexivity). apply IH.
    intros v e' He'. apply Hf. right. exact He'.
Qed.

(** X11: a sprite that is in front of the wall at no column of the screen
    leaves the display as it is. *)
Theorem renderSprite_hidden (display : Display) (sprite : Sprite) :
  (forall (x : Z) (zx : Q),
      (0 <= x < img_width (backImageData display))%Z ->
      zBuffer display x = Some zx -> zx <= pdist sprite) ->
  renderSprite display sprite = display.
Proof.
  intro Hhidden.
  assert (Hback : forall x, (0 <= x < img_width (backImageData display))%Z ->
                            spriteInFront display sprite x = false).
  { intros x Hx. unfold spriteInFront.
    destruct (zBuffer display x) as [zx |] eqn:Ez; [| reflexivity].
    apply Qlt_bool_false_iff. apply (Hhidden x zx Hx Ez). }
  unfold renderSprite. cbv zeta.
  destruct (image sprite) as [im | col].
  - rewrite fold_left_fixed.
    + destruct display; reflexivity.
    + intros v x Hx. apply Zrange_In in Hx. rewrite Hback by lia. reflexivity.
  - rewrite fold_left_fixed.
    + destruct display; reflexivity.
    + intros v x Hx. apply Zrange_In in Hx. rewrite Hback by lia. reflexivity.
Qed.

(** ** What no drawing touches: the size and the alpha bytes *)

Lemma alphaKept_refl (img : ImageData) : alphaKept img img.
Proof. unfold alphaKept. repeat split; reflexivity. Qed.

Lemma alphaKept_trans (img1 img2 img3 : ImageData) :
  alphaKept img1 img2 -> alphaKept img2 img3 -> alphaKept img1 img3.
Proof.
  intros [Hw [Hh [Hl Ha]]] [Hw' [Hh' [Hl' Ha']]]. unfold alphaKept.
  repeat split; try congruence. intros i Hi. rewrite Ha', Ha by exact Hi. reflexivity.
Qed.

Lemma image_set_alphaKept (img0 img : ImageData) (m k : Z) (v : num) :
  (0 <= k <= 2)%Z ->
  alphaKept img0 img -> alphaKept img0 (image_set img (m * 4 + k) v).
Proof.
  intros Hk Hkept. eapply alphaKept_trans; [exact Hkept |].
  unfold alphaKept, image_set. cbn [img_width img_height img_data].
  split; [reflexivity |]. split; [reflexivity |]. split.
  - unfold data_set. destruct (m * 4 + k <? 0)%Z; [reflexivity | apply list_set_length].
  - intros i Hi. apply (image_set_other img (m * 4 + k) i v).
    intro Heq. subst i.
    rewrite Z.add_comm, Z_mod_plus_full, Z.mod_small in Hi by lia. lia.
Qed.

Lemma putRGB_alphaKept (img0 img : ImageData) (m : Z) (cr cg cb : num) :
  alphaKept img0 img -> alphaKept img0 (putRGB img (m * 4) cr cg cb).
Proof.
  intro Hkept. unfold putRGB.
  apply image_set_alphaKept; [lia |].
  apply image_set_alphaKept; [lia |].
  apply image_set_alphaKept; [lia | exact Hkept].
Qed.

Lemma renderSprite_alphaKept (display : Display) (sprite : Sprite) :
  alphaKept (backImageData display) (backImageData (renderSprite display sprite)).
Proof.
  unfold renderSprite. cbv zeta.
  destruct (image sprite) as [im | col]; cbn [backImageData].
  - apply (fold_left_invariant (alphaKept (backImageData display)));
      [| apply alphaKept_refl].
    intros v x _ Hv. destruct (spriteInFront display sprite x); [| exact Hv].
    apply (fold_left_invariant (alphaKept (backImageData display))); [| exact Hv].
    intros v' y _ Hv'.
    apply image_set_alphaKept; [lia |].
    apply image_set_alphaKept; [lia |].
    apply image_set_alphaKept; [lia | exact Hv'].
  - apply (fold_left_invariant (alphaKept (backImageData display)));
      [| apply alphaKept_refl].
    intros v x _ Hv. destruct (spriteInFront display sprite x); [| exact Hv].
    apply (fold_left_invariant (alphaKept (backImageData display))); [| exact Hv].
    intros v' y _ Hv'.
    apply image_set_alphaKept; [lia |].
    apply image_set_alphaKept; [lia |].
    apply image_set_alphaKept; [lia | exact Hv'].
Qed.

Lemma renderSprites_alphaKept (sprites : list Sprite) (display : Display) :
  alphaKept (backImageData display) (backImageData (renderSprites display sprites)).
Proof.
  unfold renderSprites. revert display.
  induction sprites as [| s l IH]; intro display; simpl.
  - apply alphaKept_refl.
  - eapply alphaKept_trans; [apply renderSprite_alphaKept | apply IH].
Qed.

Section AlphaKept.
Context `{Host}.

Lemma renderWallStrip_alphaKept (display : Display) (player : Player) (scene : Scene)
    (x : Z) (p : Vector2.t) :
  alphaKept (backImageData display)
            (backImageData (renderWallStrip display player scene x p)).
Proof.
  unfold renderWallStrip. cbv zeta.
  destruct (sceneGetTile scene (hittingCell (position player) p)) as [[| col | tex] |];
    cbn [backImageData]; try apply alphaKept_refl.
  - apply (fold_left_invariant (alphaKept (backImageData display)));
      [| apply alphaKept_refl].
    intros v dy _ Hv. apply putRGB_alphaKept. exact Hv.
  - apply (fold_left_invariant (alphaKept (backImageData display)));
      [| apply alphaKept_refl].
    intros v y _ Hv. apply putRGB_alphaKept. exact Hv.
Qed.

Lemma renderWalls_alphaKept (fuel : nat) (display display' : Display)
    (player : Player) (scene : Scene) :
  renderWalls fuel display player scene = Some display' ->
  alphaKept (backImageData display) (backImageData display').
Proof.
  unfold renderWalls. cbv zeta.
  generalize (Zrange 0 (img_width (backImageData display) - 1)).
  generalize (img_width (backImageData display)) at 1. intros W columns.
  assert (Hgen : forall acc,
             match acc with
             | Some d0 => alphaKept (backImageData display) (backImageData d0)
             | None => True
             end ->
             match fold_left (fun acc x =>
                 match acc with
                 | None => None
                 | Some disp =>
                   match castRay fuel scene (position player)
                           (Vector2.lerp (fovLeft player) (fovRight player)
                              (inject_Z x / inject_Z W)) with
                   | None => None
                   | Some p => Some (renderWallStrip disp player scene x p)
                   end
                 end) columns acc with
             | Some d0 => alphaKept (backImageData display) (backImageData d0)
             | None => True
             end).
  { induction columns as [| x columns IH]; intros acc Hacc; simpl; [exact Hacc |].
    apply IH. destruct acc as [disp |]; [| exact I].
    destruct (castRay fuel scene (position player) _) as [p |]; [| exact I].
    eapply alphaKept_trans; [exact Hacc | apply renderWallStrip_alphaKept]. }
  intro Hrun. specialize (Hgen (Some display) (alphaKept_refl _)).
  rewrite Hrun in Hgen. exact Hgen.
Qed.

Lemma renderFloorAndCeiling_alphaKept (imageData : ImageData) (player : Player) :
  alphaKept imageData (renderFloorAndCeiling imageData player).
Proof.
  unfold renderFloorAndCeiling. cbv zeta.
  apply (fold_left_invariant (alphaKept imageData)); [| apply alphaKept_refl].
  intros v y _ Hv.
  apply (fold_left_invariant (alphaKept imageData)); [| exact Hv].
  intros v' x _ Hv'.
  unfold sceneGetFloor, sceneGetCeiling.
  repeat match goal with
         | |- context [if ?c then _ else _] => destruct c
         end;
    apply putRGB_alphaKept; apply putRGB_alphaKept; exact Hv'.
Qed.

(** X12: a frame of [renderGame] keeps the size of the back buffer and the
    alpha byte of every pixel: the floor, the ceiling, the walls and the
    sprites are all written to the three colour bytes only. *)
Theorem renderGame_alphaKept (fuel : nat) (display : Display) (deltaTime time : Q)
    (game : Game) (hs : HostState) (display' : Display) (game' : Game)
    (hs' : HostState) :
  renderGame fuel display deltaTime time game hs = Some (display', game', hs') ->
  alphaKept (backImageData display) (backImageData display').
Proof.
  unfold renderGame.
  destruct (updateGame deltaTime time game hs) as [game1 hs1].
  destruct (renderWalls fuel _ (game_player game1) (game_scene game1))
    as [display2 |] eqn:Ewalls; [| discriminate].
  destruct (cullSprites (game_player game1) (game_spritePool game1))
    as [[pool' visible] |]; [| discriminate].
  intro Hr. injection Hr as <- _ _.
  apply renderWalls_alphaKept in Ewalls. cbn [backImageData] in Ewalls.
  eapply alphaKept_trans; [apply renderFloorAndCeiling_alphaKept |].
  eapply alphaKept_trans; [exact Ewalls |]. apply renderSprites_alphaKept.
Qed.

End AlphaKept.

(** ** The depth buffer that [renderWalls] leaves *)

Lemma Zseq_NoDup (lo : Z) (len : nat) : NoDup (Zseq lo len).
Proof.
  revert lo. induction len as [| n IH]; intro lo; simpl.
  - constructor.
  - constructor; [| apply IH]. rewrite Zseq_In. lia.
Qed.

Section DepthBuffer.
Context `{Host}.

Lemma renderWallStrip_zBuffer (display : Display) (player : Player) (scene : Scene)
    (x : Z) (p : Vector2.t) :
  zBuffer (renderWallStrip display player scene x p)
  = zBuffer_set (zBuffer display) x
      (Vector2.dot (Vector2.sub p (position player))
                   (Vector2.setPolar (direction player) 1)).
Proof.
  unfold renderWallStrip. cbv zeta.
  destruct (sceneGetTile scene (hittingCell (position player) p)) as [[| col | tex] |];
    reflexivity.
Qed.

Lemma renderWalls_columns (fuel : nat) (player : Player) (scene : Scene) (W : Z)
    (columns : list Z) :
  NoDup columns ->
  forall display display' : Display,
    fold_left (fun acc x =>
        match acc with
        | None => None
        | Some disp =>
          match castRay fuel scene (position player)
                  (Vector2.lerp (fovLeft player) (fovRight player)
                     (inject_Z x / inject_Z W)) with
          | None => None
          | Some p => Some (renderWallStrip disp player scene x p)
          end
        end) columns (Some display) = Some display' ->
    (forall x, In x columns ->
       exists p : Vector2.t,
         castRay fuel scene (position player)
           (Vector2.lerp (fovLeft player) (fovRight player) (inject_Z x / inject_Z W))
         = Some p
         /\ zBuffer display' x
            = Some (Vector2.dot (Vector2.sub p (position player))
                                (Vector2.setPolar (direction player) 1)))
    /\ (forall x, ~ In x columns -> zBuffer display' x = zBuffer display x).
Proof.
  induction 1 as [| x columns Hnotin Hnodup IH]; intros display display' Hrun.
  - injection Hrun as <-. split; [intros x [] | reflexivity].
  - cbn [fold_left] in Hrun.
    destruct (castRay fuel scene (position player)
                (Vector2.lerp (fovLeft player) (fovRight player)
                   (inject_Z x / inject_Z W))) as [p |] eqn:Ecast.
    2:{ exfalso. clear -Hrun. induction columns as [| c columns IHc];
          [discriminate | apply IHc; exact Hrun]. }
    destruct (IH _ _ Hrun) as [Hin Hout].
    assert (Hx : zBuffer display' x
                 = Some (Vector2.dot (Vector2.sub p (position player))
                                     (Vector2.setPolar (direction player) 1))).
    { rewrite (Hout x Hnotin), renderWallStrip_zBuffer. unfold zBuffer_set.
      rewrite Z.eqb_refl. reflexivity. }
    split.
    + intros x' [<- | Hx']; [exists p; split; [exact Ecast | exact Hx] | apply Hin, Hx'].
    + intros x' Hx'.
      assert (Hne : x' <> x) by (intro; subst x'; apply Hx'; left; reflexivity).
      rewrite Hout by (intro Hr; apply Hx'; right; exact Hr).
      rewrite renderWallStrip_zBuffer. unfold zBuffer_set.
      apply Z.eqb_neq in Hne. rewrite Hne. reflexivity.
Qed.

(** X13: when [renderWalls] has gone through its columns, the depth buffer
    holds at every column [x] of the screen the depth of the point its ray
    returned, (p - position) . (cos direction, sin direction), and is as
    before at every other index. *)
Theorem renderWalls_zBuffer (fuel : nat) (display display' : Display)
    (player : Player) (scene : Scene) :
  renderWalls fuel display player scene = Some display' ->
  (forall x : Z, (0 <= x < img_width (backImageData display))%Z ->
     exists p : Vector2.t,
       castRay fuel scene (position player)
         (Vector2.lerp (fovLeft player) (fovRight player)
            (inject_Z x / inject_Z (img_width (backImageData display))))
       = Some p
       /\ zBuffer display' x
          = Some (Vector2.dot (Vector2.sub p (position player))
                              (Vector2.setPolar (direction player) 1)))
  /\ (forall x : Z, ~ (0 <= x < img_width (backImageData display))%Z ->
        zBuffer display' x = zBuffer display x).
Proof.
  unfold renderWalls. cbv zeta. intro Hrun.
  destruct (renderWalls_columns fuel player scene (img_width (backImageData display))
              (Zrange 0 (img_width (backImageData display) - 1))
              (Zseq_NoDup _ _) display display' Hrun) as [Hin Hout].
  split.
  - intros x Hx. apply Hin. apply Zrange_In. lia.
  - intros x Hx. apply Hout. rewrite Zrange_In. lia.
Qed.

End DepthBuffer.

(** ** Particles *)

Section Particles.
Context `{Host}.

Lemma emittedParticle_not_free (source : Vector3.t) (n : nat) :
  isFree (emittedParticle source n) = false.
Proof. reflexivity. Qed.

Lemma freeCount_cons (body : Bomb) (bodies : list Bomb) :
  freeCount (body :: bodies)
  = if isFree body then S (freeCount bodies) else freeCount bodies.
Proof. unfold freeCount. cbn [filter]. destruct (isFree body); reflexivity. Qed.

Lemma emitParticle_count (source : Vector3.t) (particles : list Particle)
    (hs : HostState) :
  List.length (fst (emitParticle source particles hs)) = List.length particles
  /\ freeCount (fst (emitParticle source particles hs)) = pred (freeCount particles)
  /\ randomCalls (snd (emitParticle source particles hs))
     = (randomCalls hs + match freeCount particles with O => 0 | S _ => 3 end)%nat
  /\ played (snd (emitParticle source particles hs)) = played hs.
Proof.
  induction particles as [| particle rest IH]; cbn [emitParticle].
  - cbn. repeat split. lia.
  - rewrite !freeCount_cons.
    destruct (Qle_bool (lifetime particle) 0) eqn:E;
      assert (Hfp : isFree particle = Qle_bool (lifetime particle) 0) by reflexivity;
      rewrite E in Hfp; rewrite !Hfp.
    + cbn [fst snd List.length randomCalls played].
      rewrite freeCount_cons, emittedParticle_not_free. cbn [pred]. repeat split.
    + destruct (emitParticle source rest hs) as [rest' hs'] eqn:Erest.
      cbn [fst snd] in *. rewrite freeCount_cons, Hfp.
      destruct IH as [Hlen [Hfree [Hrand Hplayed]]]. repeat split; try assumption.
      cbn [List.length]. rewrite Hlen. reflexivity.
Qed.

(** X14: [emitParticle] called [count] times takes the first free slots of
    the pool, as many as there are up to [count], and no more: the pool keeps
    its size, the number of free slots goes down by min(count, free), three
    random numbers are drawn for each particle emitted, and when no slot is
    free nothing happens at all. *)
Theorem emitParticles_count (count : nat) (source : Vector3.t)
    (particles : list Particle) (hs : HostState) :
  let emitted := Nat.min count (freeCount particles) in
  List.length (fst (emitParticles count source particles hs)) = List.length particles
  /\ freeCount (fst (emitParticles count source particles hs))
     = (freeCount particles - emitted)%nat
  /\ randomCalls (snd (emitParticles count source particles hs))
     = (randomCalls hs + 3 * emitted)%nat
  /\ played (snd (emitParticles count source particles hs)) = played hs.
Proof.
  revert particles hs. induction count as [| n IH]; intros particles hs; cbn [emitParticles].
  - cbv zeta. cbn [fst snd Nat.min].
    rewrite Nat.sub_0_r, Nat.mul_0_r, Nat.add_0_r. repeat split.
  - destruct (emitParticle_count source particles hs) as [Hlen [Hfree [Hrand Hplayed]]].
    destruct (emitParticle source particles hs) as [particles1 hs1].
    cbn [fst snd] in *.
    destruct (IH particles1 hs1) as [Hlen' [Hfree' [Hrand' Hplayed']]].
    cbv zeta in *.
    rewrite Hlen', Hfree', Hrand', Hplayed', Hlen, Hfree, Hrand, Hplayed.
    destruct (freeCount particles) as [| k]; cbn [pred]; repeat split; lia.
Qed.

End Particles.

(** ** Items *)

Section Items.
Context `{Host}.



End Items.

(** ** Bombs and particles stay where they may be *)

Section Bodies.
Context `{Host}.






(** The position of a body after the two moves of its update: the step in
    the plane is taken only into a free cell, the step in height only
    between [low] and 1. *)


Lemma emitParticles_length (count : nat) (source : Vector3.t)
    (particles : list Particle) (hs : HostState) :
  List.length (fst (emitParticles count source particles hs)) = List.length particles.
Proof.
  revert particles hs. induction count as [| n IH]; intros particles hs;
    cbn [emitParticles]; [reflexivity |].
  pose proof (emitParticle_count source particles hs) as [Hlen _].
  destruct (emitParticle source particles hs) as [particles1 hs1]. cbn [fst] in Hlen.
  rewrite IH. exact Hlen.
Qed.







End Bodies.

(** ** Pools keep their size *)

Section Pools.
Context `{Host}.

Lemma throwBomb_length (player : Player) (bombs : list Bomb) :
  List.length (throwBomb player bombs) = List.length bombs.
Proof.
  induction bombs as [| bm rest IH]; cbn [throwBomb]; [reflexivity |].
  destruct (Qle_bool (lifetime bm) 0); cbn [List.length]; [reflexivity | rewrite IH; reflexivity].
Qed.

Lemma updateItems_length (pool : SpritePool) (time : Q) (player : Player)
    (items : list Item) (assets : Assets) (hs : HostState) :
  List.length (snd (fst (updateItems pool time player items assets hs)))
  = List.length items
  /\ (poolOk pool -> poolOk (fst (fst (updateItems pool time player items assets hs)))).
Proof.
  revert pool hs. induction items as [| item rest IH]; intros pool hs.
  - cbn [updateItems fst snd]. split; [reflexivity | auto].
  - cbn [updateItems]. cbv zeta.
    match goal with
    | |- context [updateItems ?p time player rest assets ?h] =>
      specialize (IH p h);
      assert (Hp : poolOk pool -> poolOk p)
        by (intro Hok; destruct (alive _); [apply pushSprite_facts; exact Hok | exact Hok]);
      destruct (updateItems p time player rest assets h) as [[pool2 rest'] hs2]
    end.
    cbn [fst snd List.length] in *. destruct IH as [Hlen Hok].
    split; [rewrite Hlen; reflexivity | auto].
Qed.

Lemma updateBomb_shape (st : UpdateState) (player : Player) (scene : Scene)
    (deltaTime : Q) (assets : Assets) (bm : Bomb) :
  List.length (us_particles (fst (updateBomb st player scene deltaTime assets bm)))
  = List.length (us_particles st)
  /\ (poolOk (us_pool st) ->
      poolOk (us_pool (fst (updateBomb st player scene deltaTime assets bm)))).
Proof.
  unfold updateBomb. cbv zeta.
  repeat (match goal with
          | |- context [emitParticles ?n ?src ?ps ?h] =>
            pose proof (emitParticles_length n src ps h);
            destruct (emitParticles n src ps h)
          | |- context [if ?c then _ else _] => destruct c
          end; cbv beta iota);
    cbn [fst snd us_particles us_pool] in *;
    (split; [first [reflexivity | assumption] |]);
    intro Hp; first [exact Hp | apply pushSprite_facts; exact Hp].
Qed.

Lemma updateBombs_shape (st : UpdateState) (player : Player) (scene : Scene)
    (deltaTime : Q) (assets : Assets) (bombs : list Bomb) :
  List.length (snd (updateBombs st player bombs scene deltaTime assets))
  = List.length bombs
  /\ List.length (us_particles (fst (updateBombs st player bombs scene deltaTime assets)))
     = List.length (us_particles st)
  /\ (poolOk (us_pool st) ->
      poolOk (us_pool (fst (updateBombs st player bombs scene deltaTime assets)))).
Proof.
  revert st. induction bombs as [| bm rest IH]; intro st.
  - cbn [updateBombs fst snd]. repeat split; auto.
  - cbn [updateBombs].
    pose proof (updateBomb_shape st player scene deltaTime assets bm) as [Hl1 Hp1].
    destruct (updateBomb st player scene deltaTime assets bm) as [st1 bm1].
    specialize (IH st1).
    destruct (updateBombs st1 player rest scene deltaTime assets) as [st2 rest'].
    cbn [fst snd List.length] in *. destruct IH as [Hlen [Hl2 Hp2]].
    split; [rewrite Hlen; reflexivity |]. split; [congruence | auto].
Qed.

Lemma updateParticles_shape (pool : SpritePool) (deltaTime : Q) (scene : Scene)
    (particles : list Particle) :
  List.length (snd (updateParticles pool deltaTime scene particles))
  = List.length particles
  /\ (poolOk pool -> poolOk (fst (updateParticles pool deltaTime scene particles))).
Proof.
  revert pool. induction particles as [| particle rest IH]; intro pool.
  - cbn [updateParticles fst snd]. split; [reflexivity | auto].
  - cbn [updateParticles].
    assert (Hp1 : poolOk pool -> poolOk (fst (updateParticle pool deltaTime scene particle))).
    { unfold updateParticle. cbv zeta.
      repeat (match goal with
              | |- context [if ?c then _ else _] => destruct c
              end; cbv beta iota);
        cbn [fst]; intro Hp; first [exact Hp | apply pushSprite_facts; exact Hp]. }
    destruct (updateParticle pool deltaTime scene particle) as [pool1 p1].
    specialize (IH pool1).
    destruct (updateParticles pool1 deltaTime scene rest) as [pool2 rest'].
    cbn [fst snd List.length] in *. destruct IH as [Hlen Hp2].
    split; [rewrite Hlen; reflexivity | auto].
Qed.

(** X17: the updates of a frame never grow or shrink the world: the scene
    and the assets are the ones given, and there are as many items, bombs
    and particles after as before; and the sprite pool they leave, reset at
    the start of the frame, has its cursor within its slots, so that
    [cullSprites] reads no slot that is missing. *)
Theorem updateGame_keeps_pools (deltaTime time : Q) (game : Game) (hs : HostState) :
  let game' := fst (updateGame deltaTime time game hs) in
  game_scene game' = game_scene game
  /\ game_assets game' = game_assets game
  /\ List.length (game_items game') = List.length (game_items game)
  /\ List.length (game_bombs game') = List.length (game_bombs game)
  /\ List.length (game_particles game') = List.length (game_particles game)
  /\ poolOk (game_spritePool game')
  /\ exists pool' visible,
       cullSprites (game_player game') (game_spritePool game') = Some (pool', visible).
Proof.
  cbv zeta. unfold updateGame. cbv zeta.
  set (player1 := updatePlayer (game_player game) (game_scene game) deltaTime).
  assert (Hreset : poolOk (spritePoolReset (game_spritePool game))).
  { unfold poolOk, spritePoolReset. cbn [length items]. lia. }
  pose proof (updateItems_length (spritePoolReset (game_spritePool game)) time
                player1 (game_items game) (game_assets game) hs) as [Hli Hpi].
  destruct (updateItems (spritePoolReset (game_spritePool game)) time player1
              (game_items game) (game_assets game) hs) as [[pool1 items1] hs1].
  cbn [fst snd] in *.
  pose proof (updateBombs_shape (mkUpdateState pool1 (game_particles game) hs1)
                player1 (game_scene game) deltaTime (game_assets game)
                (game_bombs game)) as [Hlb [Hlp Hpb]].
  destruct (updateBombs (mkUpdateState pool1 (game_particles game) hs1) player1
              (game_bombs game) (game_scene game) deltaTime (game_assets game))
    as [st2 bombs1].
  cbn [fst snd us_particles us_pool] in *.
  pose proof (updateParticles_shape (us_pool st2) deltaTime (game_scene game)
                (us_particles st2)) as [Hlp' Hpp].
  destruct (updateParticles (us_pool st2) deltaTime (game_scene game) (us_particles st2))
    as [pool3 particles1].
  cbn [fst snd game_scene game_assets game_items game_bombs game_particles
       game_spritePool game_player] in *.
  assert (Hok : poolOk pool3) by auto.
  split; [reflexivity |]. split; [reflexivity |]. split; [exact Hli |].
  split; [exact Hlb |]. split; [congruence |]. split; [exact Hok |].
  destruct (cullSprites_loop player1 (items pool3) (length pool3) Hok)
    as [its [vis [Hrun _]]].
  unfold cullSprites. rewrite Hrun. eexists. eexists. reflexivity.
Qed.

End Pools.

(** ** Sounds *)

Lemma clamp_range (value min max : Q) :
  min <= max -> min <= clamp value min max /\ clamp value min max <= max.
Proof.
  intro Hmm. unfold clamp, Math_min, Math_max.
  destruct (Qle_bool value min) eqn:E1.
  - destruct (Qle_bool min max) eqn:E2.
    + split; [apply Qle_refl | exact Hmm].
    + split; [exact Hmm | apply Qle_refl].
  - apply Qle_bool_false_iff in E1.
    destruct (Qle_bool value max) eqn:E2.
    + apply Qle_bool_iff in E2. split; [apply Qlt_le_weak; exact E1 | exact E2].
    + split; [exact Hmm | apply Qle_refl].
Qed.

Lemma hostLater_refl (hs : HostState) : hostLater hs hs.
Proof.
  split; [lia |]. exists []. split; [rewrite app_nil_r; reflexivity | constructor].
Qed.

Lemma hostLater_trans (hs1 hs2 hs3 : HostState) :
  hostLater hs1 hs2 -> hostLater hs2 hs3 -> hostLater hs1 hs3.
Proof.
  intros [Hr1 [m1 [Hp1 Hf1]]] [Hr2 [m2 [Hp2 Hf2]]].
  split; [lia |]. exists (m1 ++ m2). split.
  - rewrite Hp2, Hp1, app_assoc. reflexivity.
  - apply Forall_app. split; assumption.
Qed.

Section Sounds.
Context `{Host}.

Lemma playSound_later (hs : HostState) (sound : Sound) (p o : Vector2.t) :
  hostLater hs (playSound hs sound p o).
Proof.
  unfold playSound. cbv zeta. split; [cbn [randomCalls]; lia |].
  eexists. split; [cbn [played]; reflexivity |].
  constructor; [| constructor]. cbn [snd]. apply clamp_range. discriminate.
Qed.

Lemma emitParticle_later (source : Vector3.t) (particles : list Particle) (hs : HostState) :
  hostLater hs (snd (emitParticle source particles hs)).
Proof.
  induction particles as [| particle rest IH]; cbn [emitParticle].
  - apply hostLater_refl.
  - destruct (Qle_bool (lifetime particle) 0).
    + cbn [snd]. split; [cbn [randomCalls]; lia |].
      exists []. split; [cbn [played]; rewrite app_nil_r; reflexivity | constructor].
    + destruct (emitParticle source rest hs) as [rest' hs']. exact IH.
Qed.

Lemma emitParticles_later (count : nat) (source : Vector3.t) (particles : list Particle)
    (hs : HostState) :
  hostLater hs (snd (emitParticles count source particles hs)).
Proof.
  revert particles hs. induction count as [| count IH]; intros particles hs;
    cbn [emitParticles].
  - apply hostLater_refl.
  - pose proof (emitParticle_later source particles hs) as H1.
    destruct (emitParticle source particles hs) as [particles1 hs1].
    eapply hostLater_trans; [exact H1 | apply IH].
Qed.

Lemma updateItems_later (pool : SpritePool) (time : Q) (player : Player)
    (items : list Item) (assets : Assets) (hs : HostState) :
  hostLater hs (snd (updateItems pool time player items assets hs)).
Proof.
  revert pool hs. induction items as [| item rest IH]; intros pool hs.
  - cbn [updateItems snd]. apply hostLater_refl.
  - cbn [updateItems]. cbv zeta.
    match goal with
    | |- context [updateItems ?p time player rest assets ?h] =>
      specialize (IH p h);
      assert (Hh : hostLater hs h)
        by (destruct (alive item && _); [apply playSound_later | apply hostLater_refl]);
      destruct (updateItems p time player rest assets h) as [[pool2 rest'] hs2]
    end.
    cbn [snd] in *. eapply hostLater_trans; eassumption.
Qed.

Lemma updateBomb_later (st : UpdateState) (player : Player) (scene : Scene)
    (deltaTime : Q) (assets : Assets) (bm : Bomb) :
  hostLater (us_host st) (us_host (fst (updateBomb st player scene deltaTime assets bm))).
Proof.
  unfold updateBomb. cbv zeta.
  repeat (match goal with
          | |- context [if ?c then _ else _] => destruct c
          | |- context [emitParticles ?n ?src ?ps ?h] =>
            pose proof (emitParticles_later n src ps h);
            destruct (emitParticles n src ps h)
          end; cbv beta iota);
    cbn [fst snd us_host] in *;
    repeat first
      [ apply hostLater_refl
      | assumption
      | apply playSound_later
      | match goal with
        | H0 : hostLater ?a ?b |- hostLater _ ?b =>
          apply (hostLater_trans _ a); [| exact H0]
        | |- hostLater _ (playSound ?a _ _ _) =>
          apply (hostLater_trans _ a); [| apply playSound_later]
        end ].
Qed.

Lemma updateBombs_later (st : UpdateState) (player : Player) (scene : Scene)
    (deltaTime : Q) (assets : Assets) (bombs : list Bomb) :
  hostLater (us_host st)
    (us_host (fst (updateBombs st player bombs scene deltaTime assets))).
Proof.
  revert st. induction bombs as [| bm rest IH]; intro st.
  - cbn [updateBombs fst]. apply hostLater_refl.
  - cbn [updateBombs].
    pose proof (updateBomb_later st player scene deltaTime assets bm) as H1.
    destruct (updateBomb st player scene deltaTime assets bm) as [st1 bm1].
    specialize (IH st1).
    destruct (updateBombs st1 player rest scene deltaTime assets) as [st2 rest'].
    cbn [fst] in *. eapply hostLater_trans; eassumption.
Qed.

(** X18: the updates of a frame only add to what the host has recorded:
    [Math.random] has been called at least as often after as before, no
    sound played before is lost, and every sound the frame plays is played
    at a volume between 0 and 1, however near or far its source is. *)
Theorem updateGame_sounds (deltaTime time : Q) (game : Game) (hs : HostState) :
  hostLater hs (snd (updateGame deltaTime time game hs)).
Proof.
  unfold updateGame. cbv zeta.
  set (player1 := updatePlayer (game_player game) (game_scene game) deltaTime).
  pose proof (updateItems_later (spritePoolReset (game_spritePool game)) time
                player1 (game_items game) (game_assets game) hs) as H1.
  destruct (updateItems (spritePoolReset (game_spritePool game)) time player1
              (game_items game) (game_assets game) hs) as [[pool1 items1] hs1].
  pose proof (updateBombs_later (mkUpdateState pool1 (game_particles game) hs1)
                player1 (game_scene game) deltaTime (game_assets game)
                (game_bombs game)) as H2.
  destruct (updateBombs (mkUpdateState pool1 (game_particles game) hs1) player1
              (game_bombs game) (game_scene game) deltaTime (game_assets game))
    as [st2 bombs1].
  destruct (updateParticles (us_pool st2) deltaTime (game_scene game) (us_particles st2))
    as [pool3 particles1].
  cbn [fst snd us_host] in *. eapply hostLater_trans; eassumption.
Qed.

End Sounds.

(** ** Throwing a bomb *)

Section Throw.
Context `{Host}.

(** X19: in a scene whose width and height are whole numbers, a player
    whose collision box meets no wall throws the bomb from a free cell and
    at a height between the scale of a bomb and 1: if every bomb in flight
    was so placed before [throwBomb], every one is after it. *)
Theorem throwBomb_placed (scene : Scene) (w h : Z) (player : Player) (bombs : list Bomb) :
  width scene == inject_Z w ->
  height scene == inject_Z h ->
  playerBoxClear scene (position player) ->
  Forall (quietBody scene BOMB_SCALE) bombs ->
  Forall (quietBody scene BOMB_SCALE) (throwBomb player bombs).
Proof.
  intros Hw Hh Hbox Hall.
  induction Hall as [| bm rest Hbm Hrest IH]; cbn [throwBomb]; [constructor |].
  destruct (Qle_bool (lifetime bm) 0).
  - constructor; [| exact Hrest].
    intros _. unfold thrownBomb. cbn [bomb_position].
    unfold Vector3.copy2, Vector3.clone2. cbn [Vector3.x Vector3.y Vector3.z].
    split.
    + destruct (sceneLookup_cell scene w h
                  (Vector2.new (Vector2.x (position player)) (Vector2.y (position player)))
                  Hw Hh) as [_ Hcell].
      rewrite Hcell. cbn [Vector2.x Vector2.y]. unfold Math_floor.
      pose proof (Qfloor_le (Vector2.x (position player))) as Hx1.
      pose proof (Qlt_floor (Vector2.x (position player))) as Hx2.
      pose proof (Qfloor_le (Vector2.y (position player))) as Hy1.
      pose proof (Qlt_floor (Vector2.y (position player))) as Hy2.
      rewrite inject_Z_plus in Hx2, Hy2. change (inject_Z 1) with 1 in Hx2, Hy2.
      apply Hbox; lra.
    + unfold BOMB_SCALE. split; lra.
  - constructor; [exact Hbm | exact IH].
Qed.

End Throw.

(** ** The player's keys *)

Section Keys.
Context `{Host}.

(** X20: keys that oppose each other cancel: a player who moves neither way
    or both ways, and turns neither way or both ways, keeps position and
    direction for a frame of any duration, and has no control velocity. *)
Theorem updatePlayer_keys_cancel (player : Player) (scene : Scene) (deltaTime : Q) :
  movingForward player = movingBackward player ->
  turningLeft player = turningRight player ->
  Vector2.eq (position (updatePlayer player scene deltaTime)) (position player)
  /\ direction (updatePlayer player scene deltaTime) == direction player
  /\ Vector2.eq (controlVelocity (updatePlayer player scene deltaTime)) (Vector2.setScalar 0).
Proof.
  intros Hm Ht. unfold updatePlayer. cbv zeta.
  cbn [position direction controlVelocity]. rewrite <- Hm, <- Ht.
  destruct (movingForward player), (turningLeft player);
    (split; [| split]);
    repeat match goal with
           | |- context [if sceneCanRectangleFitHere ?s ?u ?v ?w ?z then _ else _] =>
             destruct (sceneCanRectangleFitHere s u v w z)
           end;
    unfold Vector2.eq, Vector2.add, Vector2.sub, Vector2.setPolar, Vector2.setScalar;
    cbn [Vector2.x Vector2.y]; try split; ring.
Qed.

End Keys.

(** ** The frame counter *)

Lemma renderFPS_window (dts : list Q) (deltaTime : Q) :
  fst (renderFPS dts deltaTime)
  = skipn (List.length (dts ++ [deltaTime]) - 60) (dts ++ [deltaTime])
    \/ (61 < List.length (dts ++ [deltaTime]))%nat.
Proof.
  unfold renderFPS. cbv zeta. cbn [fst].
  destruct (60 <? List.length (dts ++ [deltaTime]))%nat eqn:E.
  - apply Nat.ltb_lt in E.
    destruct (Nat.eq_dec (List.length (dts ++ [deltaTime])) 61) as [E61 | Hne].
    + left. rewrite E61. change (61 - 60)%nat with 1%nat.
      destruct (dts ++ [deltaTime]); reflexivity.
    + right. lia.
  - apply Nat.ltb_ge in E. left.
    replace (List.length (dts ++ [deltaTime]) - 60)%nat with 0%nat by lia. reflexivity.
Qed.

Lemma skipn_snoc {A : Type} (n : nat) (l : list A) (a : A) :
  (n <= List.length l)%nat -> skipn n (l ++ [a]) = skipn n l ++ [a].
Proof.
  revert l. induction n as [| n IH]; intros l Hn; [reflexivity |].
  destruct l as [| b l]; cbn [List.length] in Hn; [lia |].
  cbn [skipn app]. apply IH. lia.
Qed.

Lemma fpsWindow_snoc (samples : list Q) (deltaTime : Q) :
  fpsWindow (samples ++ [deltaTime]) = fst (renderFPS (fpsWindow samples) deltaTime).
Proof. unfold fpsWindow. rewrite fold_left_app. reflexivity. Qed.

(** X21: [renderFPS] averages over a sliding window: after any number of
    frames the array [dts] holds the frame times of the last 60 of them, in
    order, and all of them while there have been fewer. *)
Theorem renderFPS_last_60 (samples : list Q) :
  fpsWindow samples = skipn (List.length samples - 60) samples.
Proof.
  induction samples as [| deltaTime samples IH] using rev_ind; [reflexivity |].
  rewrite fpsWindow_snoc, IH.
  assert (Hlen : (List.length (skipn (List.length samples - 60) samples) <= 60)%nat)
    by (rewrite length_skipn; lia).
  destruct (renderFPS_window (skipn (List.length samples - 60) samples) deltaTime)
    as [-> | Hbig]; [| rewrite length_app in Hbig; cbn [List.length] in Hbig; lia].
  rewrite !length_app, length_skipn. cbn [List.length].
  destruct (Nat.lt_ge_cases (List.length samples) 60) as [Hle | Hgt].
  - replace (List.length samples - 60)%nat with 0%nat by lia.
    cbn [skipn]. rewrite Nat.sub_0_r.
    replace (List.length samples + 1 - 60)%nat with 0%nat by lia. reflexivity.
  - replace (List.length samples - (List.length samples - 60) + 1 - 60)%nat with 1%nat by lia.
    replace (List.length samples + 1 - 60)%nat
      with (S (List.length samples - 60)) by lia.
    rewrite <- skipn_snoc by lia.
    generalize (List.length samples - 60)%nat as k. intro k.
    generalize (samples ++ [deltaTime]) as l. clear. intro l. revert l.
    induction k as [| k IHk]; intro l.
    + destruct l; reflexivity.
    + destruct l as [| a l]; [reflexivity |]. cbn [skipn]. 
      specialize (IHk l). cbn [skipn] in IHk. exact IHk.
Qed.


(** ** The bomb pool *)

Section BombPool.
Context `{Host}.

Lemma throwBomb_count (player : Player) (bombs : list Bomb) :
  freeCount (throwBomb player bombs) = Nat.pred (freeCount bombs).
Proof.
  induction bombs as [| bm rest IH]; cbn [throwBomb]; [reflexivity |].
  destruct (Qle_bool (lifetime bm) 0) eqn:E.
  - unfold freeCount. cbn [filter].
    change (isFree bm) with (Qle_bool (lifetime bm) 0). rewrite E.
    change (isFree (thrownBomb player)) with false.
    cbn [List.length Nat.pred]. reflexivity.
  - unfold freeCount in *. cbn [filter].
    change (isFree bm) with (Qle_bool (lifetime bm) 0). rewrite E. exact IH.
Qed.

Lemma allocateBombs_free (capacity : nat) :
  freeCount (allocateBombs capacity) = capacity
  /\ List.length (allocateBombs capacity) = capacity.
Proof.
  unfold allocateBombs. rewrite repeat_length. split; [| reflexivity].
  induction capacity as [| n IH]; [reflexivity |].
  cbn [repeat]. unfold freeCount in *. cbn [filter].
  change (isFree (mkBomb (Vector3.new 0 0 0) (Vector3.new 0 0 0) 0)) with true.
  cbn [List.length]. rewrite IH. reflexivity.
Qed.

Lemma throws_count (throwers : list Player) (bombs : list Bomb) :
  List.length (fold_left (fun bombs player => throwBomb player bombs) throwers bombs)
  = List.length bombs
  /\ freeCount (fold_left (fun bombs player => throwBomb player bombs) throwers bombs)
     = (freeCount bombs - List.length throwers)%nat.
Proof.
  revert bombs. induction throwers as [| player rest IH]; intro bombs.
  - cbn [fold_left List.length]. split; [reflexivity | lia].
  - cbn [fold_left List.length].
    destruct (IH (throwBomb player bombs)) as [Hl Hc].
    rewrite Hl, Hc, throwBomb_length, throwBomb_count. split; [reflexivity | lia].
Qed.

(** X22: the pool of [allocateBombs] bounds the bombs in flight: a pool of
    [capacity] bombs starts with every slot free, each call of [throwBomb]
    takes one free slot while there is one, and so after any throws,
    whoever throws, the pool has its [capacity] slots, of which
    [capacity] less the number of throws are free, none once that many
    bombs have been thrown. *)
Theorem throwBomb_capacity (capacity : nat) (throwers : list Player) :
  let bombs := fold_left (fun bombs player => throwBomb player bombs) throwers
                 (allocateBombs capacity) in
  List.length bombs = capacity
  /\ freeCount bombs = (capacity - List.length throwers)%nat.
Proof.
  cbv zeta.
  destruct (allocateBombs_free capacity) as [Hfree Hlen].
  destruct (throws_count throwers (allocateBombs capacity)) as [Hl Hc].
  rewrite Hl, Hc, Hfree, Hlen. split; reflexivity.
Qed.

End BombPool.

(* ------------------------------------------------------------------ *)
(** ** The properties at explicit inputs *)

Lemma createScene_getTile_witness :
  sceneGetTile (createScene rows_ragged) (Vector2.new (3 # 2) (3 # 2)) = Some TNull
  /\ sceneGetTile (createScene rows_ragged) (Vector2.new (1 # 2) (1 # 2)) = Some wall_red.
Proof.
  destruct (createScene_getTile rows_ragged) as [_ [_ [_ Hget]]]; [vm_compute; lia |].
  split.
  - rewrite Hget; [reflexivity | | | |]; vm_compute;
      first [reflexivity | discriminate].
  - rewrite Hget; [reflexivity | | | |]; vm_compute;
      first [reflexivity | discriminate].
Defined.

Lemma sceneGetTile_cell_witness :
  sceneGetTile scene_room (Vector2.new (3 # 2) (5 # 4))
  = sceneGetTile scene_room
      (Vector2.new (Math_floor (Vector2.x (Vector2.new (3 # 2) (5 # 4))))
                   (Math_floor (Vector2.y (Vector2.new (3 # 2) (5 # 4)))))
  /\ sceneIsWall scene_room (Vector2.new (3 # 2) (5 # 4))
     = sceneIsWall scene_room
         (Vector2.new (Math_floor (Vector2.x (Vector2.new (3 # 2) (5 # 4))))
                      (Math_floor (Vector2.y (Vector2.new (3 # 2) (5 # 4))))).
Proof.
  apply (sceneGetTile_cell scene_room 3 3 (Vector2.new (3 # 2) (5 # 4)));
    vm_compute; reflexivity.
Defined.

Lemma sceneCanRectangleFitHere_smaller_witness :
  sceneCanRectangleFitHere scene_room (3 # 2) (3 # 2) (1 # 4) (1 # 4) = true.
Proof.
  apply (sceneCanRectangleFitHere_smaller scene_room (3 # 2) (3 # 2)
           (1 # 2) (1 # 2) (1 # 4) (1 # 4)).
  - vm_compute. discriminate.
  - vm_compute. discriminate.
  - vm_compute. reflexivity.
Defined.

Lemma rayStep_on_gridline_witness :
  (exists n : Z,
      Vector2.x (rayStep (Vector2.new (3 # 2) (3 # 2)) (Vector2.new (16 # 10) (3 # 2)))
      = inject_Z n)
  \/ (exists n : Z,
        Vector2.y (rayStep (Vector2.new (3 # 2) (3 # 2)) (Vector2.new (16 # 10) (3 # 2)))
        = inject_Z n).
Proof.
  apply (rayStep_on_gridline (Vector2.new (3 # 2) (3 # 2)) (Vector2.new (16 # 10) (3 # 2))).
  intros [Hx _]. revert Hx. vm_compute. discriminate.
Defined.

Lemma createSpritePool_ok : poolOk createSpritePool.
Proof. unfold poolOk. vm_compute. lia. Qed.

Lemma pushSprite_slot_witness : poolOk pool_tie.
Proof.
  unfold pool_tie.
  apply (pushSprite_slot
           (pushSprite createSpritePool (SRGBA PARTICLE_COLOR) (Vector2.new 4 3)
              (1 # 2) (1 # 10))
           (SRGBA PARTICLE_COLOR) (Vector2.new 4 (- (3))) (1 # 2) (1 # 10)).
  apply (pushSprite_slot createSpritePool (SRGBA PARTICLE_COLOR) (Vector2.new 4 3)
           (1 # 2) (1 # 10)).
  exact createSpritePool_ok.
Defined.

Lemma pool_tie_ok : poolOk pool_tie.
Proof. unfold poolOk. vm_compute. lia. Qed.

Lemma cullSprites_visible_witness :
  exists pool' visible,
    cullSprites player_origin pool_tie = Some (pool', visible)
    /\ length pool' = length pool_tie
    /\ (List.length visible <= length pool_tie)%nat.
Proof.
  destruct (cullSprites_visible player_origin pool_tie pool_tie_ok)
    as [pool' [visible [Hrun [Hlen [_ [Hvis _]]]]]].
  exists pool', visible. split; [exact Hrun |]. split; [exact Hlen | exact Hvis].
Defined.

Lemma renderSprite_hidden_witness :
  renderSprite display_depth4 sprite_depth4 = display_depth4.
Proof.
  apply (renderSprite_hidden display_depth4 sprite_depth4).
  intros x zx _ Hz. change (Some 4 = Some zx) in Hz.
  injection Hz as <-. vm_compute. discriminate.
Defined.

Lemma renderGame_alphaKept_witness :
  exists (display' : Display) (game' : Game) (hs' : HostState),
    renderGame 10 (createDisplay 2 2) 0 0 game_quiet host_start
    = Some (display', game', hs')
    /\ alphaKept (backImageData (createDisplay 2 2)) (backImageData display').
Proof.
  destruct (renderGame 10 (createDisplay 2 2) 0 0 game_quiet host_start)
    as [[[display' game'] hs'] |] eqn:E.
  - exists display', game', hs'. split; [reflexivity |].
    exact (renderGame_alphaKept 10 (createDisplay 2 2) 0 0 game_quiet host_start
             display' game' hs' E).
  - pose proof renderGame_quiet_runs as Hrun. rewrite E in Hrun. discriminate.
Defined.

Lemma renderWalls_room_runs :
  isSome (renderWalls 10 (createDisplay 2 2) player_room scene_room) = true.
Proof. vm_compute. reflexivity. Qed.

Lemma renderWalls_zBuffer_witness :
  exists display' : Display,
    renderWalls 10 (createDisplay 2 2) player_room scene_room = Some display'
    /\ (forall x : Z, (0 <= x < img_width (backImageData (createDisplay 2 2)))%Z ->
          exists p : Vector2.t,
            castRay 10 scene_room (position player_room)
              (Vector2.lerp (fovLeft player_room) (fovRight player_room)
                 (inject_Z x / inject_Z (img_width (backImageData (createDisplay 2 2)))))
            = Some p
            /\ zBuffer display' x
               = Some (Vector2.dot (Vector2.sub p (position player_room))
                                   (Vector2.setPolar (direction player_room) 1)))
    /\ (forall x : Z, ~ (0 <= x < img_width (backImageData (createDisplay 2 2)))%Z ->
          zBuffer display' x = zBuffer (createDisplay 2 2) x).
Proof.
  destruct (renderWalls 10 (createDisplay 2 2) player_room scene_room)
    as [display' |] eqn:E.
  - exists display'. split; [reflexivity |].
    exact (renderWalls_zBuffer 10 (createDisplay 2 2) display' player_room scene_room E).
  - pose proof renderWalls_room_runs as Hrun. rewrite E in Hrun. discriminate.
Defined.


Lemma throwBomb_placed_witness :
  Forall (quietBody scene_room BOMB_SCALE) (throwBomb player_room (allocateBombs 2)).
Proof.
  apply (throwBomb_placed scene_room 3 3 player_room (allocateBombs 2)).
  - vm_compute. reflexivity.
  - vm_compute. reflexivity.
  - apply playerBoxClear_iff. vm_compute. reflexivity.
  - repeat (constructor; [intro Hlife; revert Hlife; vm_compute; discriminate |]).
    constructor.
Defined.


Lemma updatePlayer_keys_cancel_witness :
  Vector2.eq (position (updatePlayer player_all_keys scene_7x7 (1 # 10)))
    (position player_all_keys)
  /\ direction (updatePlayer player_all_keys scene_7x7 (1 # 10)) == direction player_all_keys
  /\ Vector2.eq (controlVelocity (updatePlayer player_all_keys scene_7x7 (1 # 10)))
       (Vector2.setScalar 0).
Proof.
  apply (updatePlayer_keys_cancel player_all_keys scene_7x7 (1 # 10)); reflexivity.
Defined.
